(** * Self_Learning_RAG: a shallow embedding of [simple_rag_demo.py] and
      [test_api.py], and the properties of the retrieval pipeline.

    Conventions of the embedding.
    - A Python [float] / [numpy.float64] is an IEEE-754 binary64 number: Rocq's
      primitive [float].  Division by zero raises nothing there, it yields an
      infinity or NaN (numpy only emits a [RuntimeWarning]).
    - A Python [str] is a [string] holding its UTF-8 encoding; the operations
      that count characters ([s[:n]], [s[-n:]]) work on code points.
    - A Python [dict] with string keys is a [gmap string _]; a [list] is a
      [list]; a Python [int] that may be negative is a [Z].
    - A method that mutates the object, prints, draws random numbers or may
      raise is a function [world -> outcome A * world]. *)

From Stdlib Require Import ZArith List Ascii String Floats Permutation Sorted Lia.
From stdpp Require Import base option list gmap strings.

Local Open Scope Z_scope.
Local Open Scope nat_scope.
Local Open Scope string_scope.
Local Open Scope list_scope.

(* ===================================================================== *)
(** ** Exceptions and outcomes *)

(** The exception classes the properties speak about.  [ValueError] is what
    [numpy.dot] raises on operands of different lengths and [IndexError] what
    a list subscript raises out of range.  [DuplicateIdError] and
    [DegenerateVectorError] come from the error taxonomy of the specification. *)
Inductive exn : Type :=
| ValueError
| IndexError
| DuplicateIdError
| DegenerateVectorError.

Inductive outcome (A : Type) : Type :=
| Returns (a : A)
| Raises (e : exn).
Arguments Returns {A} a.
Arguments Raises {A} e.

Definition raised {A} (o : outcome A) : bool :=
  match o with Returns _ => false | Raises _ => true end.

Definition obind {A B} (o : outcome A) (k : A -> outcome B) : outcome B :=
  match o with
  | Returns a => k a
  | Raises e => Raises e
  end.

(** A [for] loop that builds a list and stops at the first exception. *)
Fixpoint omap {A B} (f : A -> outcome B) (l : list A) : outcome (list B) :=
  match l with
  | [] => Returns []
  | x :: l' => obind (f x) (fun y => obind (omap f l') (fun ys => Returns (y :: ys)))
  end.

(* ===================================================================== *)
(** ** numpy on one-dimensional float64 arrays *)

Definition vector := list float.

(** [np.dot(a, b)] for two 1-D arrays: the sum of the products, or
    [ValueError] when the shapes differ.  The products are accumulated from
    left to right; a BLAS back end may associate the sum differently, which
    changes at most the rounding of the result and nothing below depends on. *)
Definition dot_sum (a b : vector) : float :=
  fold_left (fun acc xy => (acc + fst xy * snd xy)%float) (combine a b) 0%float.

Definition np_dot (a b : vector) : outcome float :=
  if Nat.eqb (length a) (length b) then Returns (dot_sum a b) else Raises ValueError.

(** [np.linalg.norm(a)] for a 1-D real array: [sqrt(a.dot(a))]. *)
Definition np_linalg_norm (a : vector) : float :=
  PrimFloat.sqrt (dot_sum a a).

(** [SimpleRAG._cosine_similarity] *)
Definition _cosine_similarity (vec1 vec2 : vector) : outcome float :=
  obind (np_dot vec1 vec2) (fun dot_product =>
  let norm_a := np_linalg_norm vec1 in
  let norm_b := np_linalg_norm vec2 in
  Returns (dot_product / (norm_a * norm_b))%float).

Example cos_ex1 : _cosine_similarity [0%float] [1%float] = Returns nan.
Proof. vm_compute. reflexivity. Qed.

Example cos_ex2 : _cosine_similarity [1%float; 0%float] [1%float; 0%float] = Returns 1%float.
Proof. vm_compute. reflexivity. Qed.

(* ===================================================================== *)
(** ** Python strings, slices and sorting *)

(** The line feed of ["\n"]. *)
Definition nl : string := String "010"%char EmptyString.

(** A byte [10xxxxxx] continues the code point begun by an earlier byte. *)
Definition is_continuation (c : ascii) : bool :=
  let n := nat_of_ascii c in Nat.leb 128 n && Nat.ltb n 192.

(** [s[:n]] for [n >= 0]: the first [n] code points. *)
Fixpoint str_take (n : nat) (s : string) : string :=
  match s with
  | EmptyString => EmptyString
  | String c s' =>
      if is_continuation c then String c (str_take n s')
      else match n with
           | O => EmptyString
           | S n' => String c (str_take n' s')
           end
  end.

(** [len(s)]: the number of code points. *)
Fixpoint str_len (s : string) : nat :=
  match s with
  | EmptyString => 0
  | String c s' => if is_continuation c then str_len s' else S (str_len s')
  end.

Fixpoint skip_continuation (s : string) : string :=
  match s with
  | EmptyString => EmptyString
  | String c s' => if is_continuation c then skip_continuation s' else s
  end.

(** [s[n:]] for [n >= 0]. *)
Fixpoint str_drop (n : nat) (s : string) : string :=
  match n with
  | O => s
  | S n' =>
      match s with
      | EmptyString => EmptyString
      | String _ s' => str_drop n' (skip_continuation s')
      end
  end.

(** [s[-n:]] for [n > 0]: the last [n] code points, all of [s] when it is shorter. *)
Definition str_last (n : nat) (s : string) : string :=
  str_drop (str_len s - n) s.

(** ["=" * n] *)
Fixpoint str_repeat (c : ascii) (n : nat) : string :=
  match n with
  | O => EmptyString
  | S n' => String c (str_repeat c n')
  end.

(** [' '.join(l)] *)
Fixpoint join (sep : string) (l : list string) : string :=
  match l with
  | [] => ""
  | [s] => s
  | s :: l' => s +:+ sep +:+ join sep l'
  end.

(** [enumerate(l, start)] *)
Definition enumerate {A} (start : nat) (l : list A) : list (nat * A) :=
  combine (seq start (length l)) l.

(** [l[i]] for [i >= 0]. *)
Definition subscript {A} (l : list A) (i : nat) : outcome A :=
  match l !! i with
  | Some x => Returns x
  | None => Raises IndexError
  end.

(** [l[:k]]: a negative [k] counts from the end. *)
Definition slice_to {A} (l : list A) (k : Z) : list A :=
  if (0 <=? k)%Z then firstn (Z.to_nat k) l
  else firstn (Z.to_nat (Z.of_nat (length l) + k)) l.

(** [l.sort(key=key, reverse=True)].  Python's sort compares keys with [<]
    only and is stable, also under [reverse=True]: elements whose keys tie keep
    their original order.  On keys that [<] orders totally this determines the
    result, which is the one computed here by stable insertion: an element goes
    behind exactly the elements whose key is strictly greater.  When a key is
    NaN every comparison with it is false and the result of Python's sort,
    still a permutation of the list, depends on its merge strategy and may
    differ from the one computed here.  The theorems below therefore state of
    the sorted list only that it is a permutation and, for scores that are
    not NaN, that it is descending and stable. *)
Fixpoint insert_desc {A} (key : A -> float) (x : A) (l : list A) : list A :=
  match l with
  | [] => [x]
  | y :: l' =>
      if (key x <? key y)%float then y :: insert_desc key x l'
      else x :: y :: l'
  end.

Definition list_sort_reverse {A} (key : A -> float) (l : list A) : list A :=
  fold_right (insert_desc key) [] l.

Example sort_ex :
  list_sort_reverse snd [(0, 0.5%float); (1, 2%float); (2, 0.5%float); (3, 1%float)]
  = [(1, 2%float); (3, 1%float); (0, 0.5%float); (2, 0.5%float)].
Proof. vm_compute. reflexivity. Qed.

Example slice_ex : slice_to [1; 2; 3] 2 = [1; 2] /\ slice_to [1; 2; 3] 5 = [1; 2; 3]
                   /\ slice_to [1; 2; 3] (-1) = [1; 2] /\ slice_to [1; 2; 3] (-7) = [].
Proof. repeat split. Qed.

Example str_take_ex : str_take 2 "知识库" = "知识" /\ str_last 2 "知识库" = "识库"
                      /\ str_len "知识库" = 3.
Proof. repeat split. Qed.

(* ===================================================================== *)
(** ** [simple_rag_demo.py] *)

Module simple_rag_demo.

(** One element of [self.documents]: the dict [{'id': ..., 'content': ...}]. *)
Record document : Type := Doc { doc_id : string; doc_content : string }.

(** The attributes of a [SimpleRAG] object. *)
Record SimpleRAG : Type := RAG {
  documents : list document;
  embeddings : list vector;
  index : gmap string nat
}.

(** A piece of a formatted line: literal text, an integer printed in
    decimal ([{i}]) or a float printed with three decimals ([{score:.3f}]). *)
Inductive piece : Type :=
| Lit (s : string)
| Dec (n : nat)
| Fix3 (x : float).

(** What a run leaves behind: the lines given to [print], and a record of
    each call of [generate_answer] with its arguments. *)
Inductive event : Type :=
| Stdout (line : list piece)
| Generate (query : string) (context : list string).

(** The object, numpy's global random generator and the events so far.
    The generator is the sequence of numbers it is going to produce
    ([random]) and how many of them were consumed ([drawn]). *)
Record world : Type := World {
  self : SimpleRAG;
  random : nat -> float;
  drawn : nat;
  trace : list event
}.

Definition set_self (r : SimpleRAG) (w : world) : world :=
  World r (random w) (drawn w) (trace w).
Definition set_drawn (n : nat) (w : world) : world :=
  World (self w) (random w) n (trace w).
Definition log (e : event) (w : world) : world :=
  World (self w) (random w) (drawn w) (trace w ++ [e]).

(** *** The monad of methods *)

Definition M (A : Type) : Type := world -> outcome A * world.

Definition ret {A} (a : A) : M A := fun w => (Returns a, w).

Definition bind {A B} (m : M A) (k : A -> M B) : M B :=
  fun w =>
    match m w with
    | (Returns a, w') => k a w'
    | (Raises e, w') => (Raises e, w')
    end.

Definition lift {A} (o : outcome A) : M A := fun w => (o, w).

Notation "'let!' x ':=' m 'in' k" := (bind m (fun x => k))
  (at level 10, x pattern, m at level 100, k at level 200).
Notation "m ;> k" := (bind m (fun _ => k))
  (at level 100, k at level 200, right associativity).

Definition get_self : M SimpleRAG := fun w => (Returns (self w), w).
Definition update (f : SimpleRAG -> SimpleRAG) : M unit :=
  fun w => (Returns tt, set_self (f (self w)) w).
Definition print (line : list piece) : M unit :=
  fun w => (Returns tt, log (Stdout line) w).

(** [np.random.rand(n)]: the next [n] numbers of the generator. *)
Definition np_random_rand (n : nat) : M vector :=
  fun w => (Returns (map (random w) (seq (drawn w) n)), set_drawn (drawn w + n) w).

(** *** The class *)

(** [SimpleRAG.__init__] *)
Definition __init__ : SimpleRAG := RAG [] [] ∅.

(** [SimpleRAG._generate_embedding].  The locals [words] and [vocab] are
    computed from [text] and never read; the vector is the generator's. *)
Definition _generate_embedding (text : string) : M vector :=
  let! vector := np_random_rand 100 in
  ret vector.

(** [SimpleRAG.add_document] *)
Definition add_document (doc_id content : string) : M unit :=
  update (fun r => RAG (documents r ++ [Doc doc_id content]) (embeddings r) (index r)) ;>
  let! embedding := _generate_embedding content in
  update (fun r => RAG (documents r) (embeddings r ++ [embedding]) (index r)) ;>
  update (fun r => RAG (documents r) (embeddings r)
                       (<[doc_id := length (documents r) - 1]> (index r))) ;>
  print [Lit ("文档 " +:+ doc_id +:+ " 已添加到知识库")].

(** The first loop of [retrieve]: a score for each stored vector. *)
Definition score_all (query_embedding : vector) (embeddings : list vector)
  : outcome (list (nat * float)) :=
  omap (fun '(i, doc_embedding) =>
          obind (_cosine_similarity query_embedding doc_embedding) (fun similarity =>
          Returns (i, similarity)))
       (enumerate 0 embeddings).

(** The second loop of [retrieve]: the content of each ranked document. *)
Definition collect (documents : list document) (ranked : list (nat * float))
  : outcome (list (string * float)) :=
  omap (fun '(i, similarity) =>
          obind (subscript documents i) (fun doc =>
          Returns (doc_content doc, similarity)))
       ranked.

(** [SimpleRAG.retrieve] *)
Definition retrieve (query : string) (top_k : Z) : M (list (string * float)) :=
  let! r := get_self in
  match documents r with
  | [] => ret []
  | _ :: _ =>
      let! query_embedding := _generate_embedding query in
      let! r := get_self in
      let! similarities := lift (score_all query_embedding (embeddings r)) in
      let similarities := list_sort_reverse snd similarities in
      let! r := get_self in
      lift (collect (documents r) (slice_to similarities top_k))
  end.

(** [SimpleRAG.generate_answer].  The prompt is assembled from the context
    and the query; the answer is built from the query alone. *)
Definition generate_answer (query : string) (context : list string) : string :=
  let prompt :=
    nl +:+ "        基于以下上下文信息回答问题：" +:+ nl +:+
    "        " +:+ nl +:+
    "        上下文：" +:+ nl +:+
    "        " +:+ join " " context +:+ nl +:+
    "        " +:+ nl +:+
    "        问题：" +:+ query +:+ nl +:+
    "        " +:+ nl +:+
    "        回答：" +:+ nl +:+
    "        " in
  let answer :=
    "根据检索到的信息，关于'" +:+ query +:+ "'的回答是：基于提供的上下文，这里是生成的答案。" in
  answer.

(** The loop of [query] over [enumerate(retrieved_docs, 1)]. *)
Fixpoint show_retrieved (i : nat) (retrieved_docs : list (string * float))
  : M (list string) :=
  match retrieved_docs with
  | [] => ret []
  | (content, score) :: rest =>
      print [Lit "  "; Dec i; Lit ". 相似度: "; Fix3 score] ;>
      print [Lit ("     内容: " +:+ str_take 100 content +:+ "...")] ;>
      let! context_list := show_retrieved (S i) rest in
      ret (content :: context_list)
  end.

Definition no_information : string := "抱歉，知识库中没有相关信息。".

(** [SimpleRAG.query] *)
Definition query (question : string) : M string :=
  print [Lit (nl +:+ "问题：" +:+ question)] ;>
  print [Lit (str_repeat "=" 50)] ;>
  print [Lit "1. 检索相关文档..."] ;>
  let! retrieved_docs := retrieve question 3 in
  match retrieved_docs with
  | [] => ret no_information
  | _ :: _ =>
      print [Lit "检索到的相关文档："] ;>
      let! context_list := show_retrieved 1 retrieved_docs in
      print [Lit (nl +:+ "2. 生成回答...")] ;>
      (fun w => (Returns tt, log (Generate question context_list) w)) ;>
      let answer := generate_answer question context_list in
      print [Lit (nl +:+ "最终回答：" +:+ answer)] ;>
      ret answer
  end.

(** A [for] loop run for its effects. *)
Fixpoint for_each {A} (body : A -> M unit) (l : list A) : M unit :=
  match l with
  | [] => ret tt
  | x :: l' => body x ;> for_each body l'
  end.

(** [main]: a new object, five documents, three questions. *)
Definition main : M unit :=
  print [Lit "简单RAG系统演示"] ;>
  print [Lit (str_repeat "=" 50)] ;>
  update (fun _ => __init__) ;>
  let documents :=
    [("doc1", "人工智能是计算机科学的一个分支，致力于创造能够模拟人类智能的机器。");
     ("doc2", "机器学习是人工智能的一个子集，通过算法让计算机从数据中学习模式。");
     ("doc3", "深度学习使用神经网络来处理复杂的数据模式，是机器学习的一个分支。");
     ("doc4", "自然语言处理专注于让计算机理解和生成人类语言。");
     ("doc5", "RAG技术结合了信息检索和文本生成，能够基于外部知识生成准确回答。")] in
  print [Lit "添加文档到知识库..."] ;>
  for_each (fun '(doc_id, content) => add_document doc_id content) documents ;>
  print [Lit (nl +:+ "知识库已包含 "); Dec (length documents); Lit " 个文档"] ;>
  let test_queries :=
    ["什么是人工智能？"; "机器学习和深度学习有什么关系？"; "RAG技术是什么？"] in
  for_each (fun query' =>
              query query' ;>
              print [Lit (nl +:+ str_repeat "=" 50 +:+ nl)])
           test_queries.

(** How often [generate_answer] was called. *)
Fixpoint generator_calls (t : list event) : nat :=
  match t with
  | [] => 0
  | Generate _ _ :: t' => S (generator_calls t')
  | Stdout _ :: t' => generator_calls t'
  end.

(** The states a [SimpleRAG] object goes through: it starts empty and its
    public methods are called in any order with any arguments. *)
Inductive reachable : world -> Prop :=
| reach_init w : self w = __init__ -> reachable w
| reach_add w doc_id content :
    reachable w -> reachable (snd (add_document doc_id content w))
| reach_retrieve w q top_k :
    reachable w -> reachable (snd (retrieve q top_k w))
| reach_query w question :
    reachable w -> reachable (snd (query question w)).

(** A generator for examples: it produces the vectors of [vs] one after
    the other, each padded with zeros to 100 numbers, then zeros.  With few
    non-zero components, all of them powers of two, every sum of products
    below is exact in whatever order it is accumulated. *)
Definition tape_of (vs : list vector) (n : nat) : float :=
  nth (n mod 100) (nth (n / 100) vs []) 0%float.

Definition fresh (rand : nat -> float) : world := World __init__ rand 0 [].

End simple_rag_demo.

(* ===================================================================== *)
(** ** [test_api.py] *)

Module test_api.

(** A piece of a printed line: text, or an integer printed in decimal. *)
Inductive piece : Type :=
| Lit (s : string)
| Num (n : Z).

(** The exceptions of a request, as the [except] clauses of
    [test_api_connection] tell them apart, each with its message. *)
Inductive api_exception : Type :=
| AuthenticationError (e : string)
| APIConnectionError (e : string)
| RateLimitError (e : string)
| APIError (e : string)
| OtherException (e : string).

Definition message (x : api_exception) : string :=
  match x with
  | AuthenticationError e | APIConnectionError e | RateLimitError e
  | APIError e | OtherException e => e
  end.

(** The arguments of [Anthropic(...).messages.create(...)]. *)
Record request : Type := Request {
  api_key : string;
  base_url : string;
  model : string;
  max_tokens : Z;
  user_content : string
}.

(** What the scripts read of a response: the text of each content block,
    the model and the token counts. *)
Record response : Type := Response {
  content : list string;
  response_model : string;
  input_tokens : Z;
  output_tokens : Z
}.

(** The process and what surrounds it: the environment variables, the
    variables of the [.env] file, the service behind the client, the lines
    printed and the requests sent so far. *)
Record process : Type := Process {
  environ : gmap string string;
  dotenv : gmap string string;
  service : request -> api_exception + response;
  stdout : list (list piece);
  requests : list request
}.

Definition print (line : list piece) (p : process) : process :=
  Process (environ p) (dotenv p) (service p) (stdout p ++ [line]) (requests p).

(** [load_dotenv()]: the variables of the file are added to the
    environment; a variable that is already set keeps its value. *)
Definition load_dotenv (p : process) : process :=
  Process (environ p ∪ dotenv p) (dotenv p) (service p) (stdout p) (requests p).

(** [os.getenv(name)] *)
Definition getenv (name : string) (p : process) : option string :=
  environ p !! name.

(** [not v] for a value that is [None] or a string. *)
Definition falsy (v : option string) : bool :=
  match v with
  | None => true
  | Some EmptyString => true
  | Some (String _ _) => false
  end.

(** [client.messages.create(...)] *)
Definition messages_create (r : request) (p : process)
  : (api_exception + response) * process :=
  (service p r,
   Process (environ p) (dotenv p) (service p) (stdout p) (requests p ++ [r])).

(** [load_environment] *)
Definition load_environment (p : process) : (option string * option string) * process :=
  let p := load_dotenv p in
  let api_key := getenv "ANTHROPIC_API_KEY" p in
  let base_url := getenv "ANTHROPIC_BASE_URL" p in
  if falsy api_key then
    ((None, None), print [Lit "❌ 错误: 未找到ANTHROPIC_API_KEY环境变量"] p)
  else if falsy base_url then
    ((None, None), print [Lit "❌ 错误: 未找到ANTHROPIC_BASE_URL环境变量"] p)
  else
    let k := default "" api_key in
    let p := print [Lit ("✅ API Key: " +:+ str_take 10 k +:+ "..." +:+ str_last 4 k)] p in
    let p := print [Lit ("✅ Base URL: " +:+ default "" base_url)] p in
    ((api_key, base_url), p).

(** [test_api_connection] *)
Definition test_api_connection (api_key base_url : string) (p : process) : bool * process :=
  let p := print [Lit (nl +:+ "🔄 正在测试API连接...")] p in
  let '(result, p) :=
    messages_create
      (Request api_key base_url "claude-3-sonnet-20240229" 100
         "请简单回复'API测试成功'，并说明你是Claude的哪个版本。") p in
  match result with
  | inr response =>
      let p := print [Lit "✅ API调用成功!"] p in
      match content response with
      | text :: _ =>
          let p := print [Lit ("📝 响应内容: " +:+ text)] p in
          let p := print [Lit ("🔧 使用模型: " +:+ response_model response)] p in
          let p := print [Lit "📊 输入tokens: "; Num (input_tokens response)] p in
          let p := print [Lit "📊 输出tokens: "; Num (output_tokens response)] p in
          (true, p)
      | [] => (false, print [Lit "❌ 未知错误: list index out of range"] p)
      end
  | inl (AuthenticationError e) =>
      let p := print [Lit ("❌ 认证错误: " +:+ e)] p in
      (false, print [Lit "请检查API Key是否正确"] p)
  | inl (APIConnectionError e) =>
      let p := print [Lit ("❌ 连接错误: " +:+ e)] p in
      (false, print [Lit "请检查Base URL是否正确或网络连接"] p)
  | inl (RateLimitError e) =>
      let p := print [Lit ("❌ 速率限制错误: " +:+ e)] p in
      (false, print [Lit "请稍后重试"] p)
  | inl (APIError e) => (false, print [Lit ("❌ API错误: " +:+ e)] p)
  | inl (OtherException e) => (false, print [Lit ("❌ 未知错误: " +:+ e)] p)
  end.

(** [test_rag_scenario] *)
Definition test_rag_scenario (api_key base_url : string) (p : process) : bool * process :=
  let p := print [Lit (nl +:+ "🔄 正在测试RAG场景...")] p in
  let context :=
    nl +:+ "        上下文信息：" +:+ nl +:+
    "        RAG（Retrieval-Augmented Generation）是一种结合了信息检索和生成式AI的技术。" +:+ nl +:+
    "        它通过检索相关文档片段，然后将这些信息作为上下文提供给大语言模型来生成更准确的回答。" +:+ nl +:+
    "        " in
  let question := "根据上述上下文，请解释什么是RAG技术？" in
  let '(result, p) :=
    messages_create
      (Request api_key base_url "claude-3-sonnet-20240229" 200
         (context +:+ nl +:+ nl +:+ "问题：" +:+ question)) p in
  match result with
  | inr response =>
      let p := print [Lit "✅ RAG场景测试成功!"] p in
      match content response with
      | text :: _ => (true, print [Lit ("📝 RAG回答: " +:+ text)] p)
      | [] => (false, print [Lit "❌ RAG场景测试失败: list index out of range"] p)
      end
  | inl x => (false, print [Lit ("❌ RAG场景测试失败: " +:+ message x)] p)
  end.

(** [main], with the exit status of the process: 1 where [sys.exit(1)]
    is called, 0 where [main] returns. *)
Definition main (p : process) : Z * process :=
  let p := print [Lit "🚀 开始RAG API测试"] p in
  let p := print [Lit (str_repeat "=" 50)] p in
  let '((api_key, base_url), p) := load_environment p in
  match api_key, base_url with
  | Some (String a k), Some (String b u) =>
      let api_key := String a k in
      let base_url := String b u in
      let '(basic_test_success, p) := test_api_connection api_key base_url p in
      if basic_test_success then
        let '(rag_test_success, p) := test_rag_scenario api_key base_url p in
        let p :=
          if rag_test_success
          then print [Lit (nl +:+ "🎉 所有测试通过！API配置正确，可以用于RAG应用。")] p
          else print [Lit (nl +:+ "⚠️ 基本API测试通过，但RAG场景测试失败。")] p in
        let p := print [Lit (str_repeat "=" 50)] p in
        (0%Z, print [Lit "✅ 测试完成"] p)
      else
        (1%Z, print [Lit (nl +:+ "❌ API测试失败，请检查配置。")] p)
  | _, _ => (1%Z, p)
  end.

End test_api.

(* ===================================================================== *)
(** ** Facts about binary64 comparison and division *)

Module FloatFacts.

(** A float that is not NaN, placed in a lexicographic order of integer
    triples: class (infinities outside the finite numbers, zeros in the
    middle), then exponent, then mantissa, the last two mirrored for the
    negative numbers. *)
Definition rank (x : spec_float) : Z * Z * Z :=
  match x with
  | S754_zero _ => (0, 0, 0)
  | S754_infinity false => (2, 0, 0)
  | S754_infinity true => (-2, 0, 0)
  | S754_nan => (0, 0, 0)
  | S754_finite false m e => (1, e, Zpos m)
  | S754_finite true m e => (-1, - e, Zneg m)
  end%Z.

Definition lex_lt (a b : Z * Z * Z) : Prop :=
  let '(a1, a2, a3) := a in
  let '(b1, b2, b3) := b in
  (a1 < b1 \/ (a1 = b1 /\ (a2 < b2 \/ (a2 = b2 /\ a3 < b3))))%Z.

Lemma lex_lt_trans a b c : lex_lt a b -> lex_lt b c -> lex_lt a c.
Proof.
  destruct a as [[a1 a2] a3], b as [[b1 b2] b3], c as [[c1 c2] c3].
  unfold lex_lt. lia.
Qed.

Lemma lex_lt_negtrans a b c : ~ lex_lt a b -> ~ lex_lt b c -> ~ lex_lt a c.
Proof.
  destruct a as [[a1 a2] a3], b as [[b1 b2] b3], c as [[c1 c2] c3].
  unfold lex_lt. lia.
Qed.

Lemma lex_lt_irrefl a : ~ lex_lt a a.
Proof. destruct a as [[a1 a2] a3]. unfold lex_lt. lia. Qed.

Lemma lex_lt_total a b : ~ lex_lt a b -> ~ lex_lt b a -> a = b.
Proof.
  destruct a as [[a1 a2] a3], b as [[b1 b2] b3]. unfold lex_lt.
  intros. assert (a1 = b1 /\ a2 = b2 /\ a3 = b3) as (-> & -> & ->) by lia.
  reflexivity.
Qed.

Local Ltac close_cmp :=
  split; intros; try discriminate; try reflexivity; try lia;
  try (match goal with H : (_, _, _) = (_, _, _) |- _ => injection H; intros; lia end).

Lemma SFltb_rank x y :
  x <> S754_nan -> y <> S754_nan ->
  SFltb x y = true <-> lex_lt (rank x) (rank y).
Proof.
  intros Hx Hy. unfold SFltb.
  destruct x as [sx|sx| |sx mx e1], y as [sy|sy| |sy my e2];
    try congruence;
    try (destruct sx); try (destruct sy); cbn; try (now close_cmp).
  - destruct (Z.compare_spec e1 e2) as [He|He|He]; try (now close_cmp).
    subst. replace (PosDef.Pos.compare_cont Eq mx my) with (Pos.compare mx my) by reflexivity.
    destruct (Pos.compare_spec mx my); cbn; now close_cmp.
  - destruct (Z.compare_spec e1 e2) as [He|He|He]; try (now close_cmp).
    subst. replace (PosDef.Pos.compare_cont Eq mx my) with (Pos.compare mx my) by reflexivity.
    destruct (Pos.compare_spec mx my); cbn; now close_cmp.
Qed.

Lemma SFeqb_rank x y :
  x <> S754_nan -> y <> S754_nan ->
  SFeqb x y = true <-> rank x = rank y.
Proof.
  intros Hx Hy. unfold SFeqb.
  destruct x as [sx|sx| |sx mx e1], y as [sy|sy| |sy my e2];
    try congruence;
    try (destruct sx); try (destruct sy); cbn; try (now close_cmp).
  - destruct (Z.compare_spec e1 e2) as [He|He|He]; try (now close_cmp).
    subst. replace (PosDef.Pos.compare_cont Eq mx my) with (Pos.compare mx my) by reflexivity.
    destruct (Pos.compare_spec mx my); cbn; subst; now close_cmp.
  - destruct (Z.compare_spec e1 e2) as [He|He|He]; try (now close_cmp).
    subst. replace (PosDef.Pos.compare_cont Eq mx my) with (Pos.compare mx my) by reflexivity.
    destruct (Pos.compare_spec mx my); cbn; subst; now close_cmp.
Qed.

Lemma is_nan_spec x : is_nan x = true <-> Prim2SF x = S754_nan.
Proof.
  unfold is_nan. rewrite FloatAxioms.eqb_spec.
  destruct (Prim2SF x) as [s|s| |s m e] eqn:E.
  - simpl. split; discriminate.
  - destruct s; simpl; split; discriminate.
  - simpl. split; reflexivity.
  - assert (H : SFeqb (S754_finite s m e) (S754_finite s m e) = true)
      by (apply SFeqb_rank; congruence).
    rewrite H. simpl. split; discriminate.
Qed.

Lemma not_nan_spec x : is_nan x = false <-> Prim2SF x <> S754_nan.
Proof.
  rewrite <- is_nan_spec. destruct (is_nan x); split; congruence.
Qed.

Lemma ltb_nan_l x y : is_nan x = true -> (x <? y)%float = false.
Proof. rewrite is_nan_spec, FloatAxioms.ltb_spec. intros ->. reflexivity. Qed.

Lemma ltb_nan_r x y : is_nan y = true -> (x <? y)%float = false.
Proof.
  rewrite is_nan_spec, FloatAxioms.ltb_spec. intros ->. unfold SFltb.
  destruct (Prim2SF x); reflexivity.
Qed.

Lemma ltb_rank x y :
  is_nan x = false -> is_nan y = false ->
  (x <? y)%float = true <-> lex_lt (rank (Prim2SF x)) (rank (Prim2SF y)).
Proof.
  rewrite !not_nan_spec, FloatAxioms.ltb_spec. apply SFltb_rank.
Qed.

Lemma ltb_false_rank x y :
  is_nan x = false -> is_nan y = false ->
  (x <? y)%float = false <-> ~ lex_lt (rank (Prim2SF x)) (rank (Prim2SF y)).
Proof.
  intros Hx Hy. rewrite <- (ltb_rank x y Hx Hy).
  destruct (x <? y)%float; split; congruence.
Qed.

(** [<] is asymmetric on all floats. *)
Lemma ltb_asym x y : (x <? y)%float = true -> (y <? x)%float = false.
Proof.
  intros H.
  destruct (is_nan x) eqn:Hx; [now rewrite ltb_nan_l in H|].
  destruct (is_nan y) eqn:Hy; [now rewrite ltb_nan_r in H|].
  apply ltb_false_rank; auto. apply ltb_rank in H; auto.
  intros H'. exact (lex_lt_irrefl _ (lex_lt_trans _ _ _ H H')).
Qed.

(** "Not less than" is transitive through a number that is not NaN. *)
Lemma ltb_negtrans x y z :
  is_nan y = false ->
  (x <? y)%float = false -> (y <? z)%float = false -> (x <? z)%float = false.
Proof.
  intros Hy Hxy Hyz.
  destruct (is_nan x) eqn:Hx; [now apply ltb_nan_l|].
  destruct (is_nan z) eqn:Hz; [now apply ltb_nan_r|].
  apply ltb_false_rank; auto.
  apply ltb_false_rank in Hxy, Hyz; auto.
  eapply lex_lt_negtrans; eauto.
Qed.

(** Two numbers neither of which is less than the other compare equal. *)
Lemma tie_eqb x y :
  is_nan x = false -> is_nan y = false ->
  ((x <? y)%float = false /\ (y <? x)%float = false) <-> (x =? y)%float = true.
Proof.
  intros Hx Hy. rewrite FloatAxioms.eqb_spec.
  rewrite SFeqb_rank by (now apply not_nan_spec).
  rewrite !ltb_false_rank by assumption.
  split.
  - intros [H1 H2]. now apply lex_lt_total.
  - intros ->. split; apply lex_lt_irrefl.
Qed.

(** On numbers that are not NaN, [y <= x] says that [x < y] fails. *)
Lemma leb_not_ltb x y :
  is_nan x = false -> is_nan y = false ->
  (y <=? x)%float = true <-> (x <? y)%float = false.
Proof.
  intros Hx Hy. rewrite ltb_false_rank by assumption.
  apply not_nan_spec in Hx, Hy.
  rewrite FloatAxioms.leb_spec.
  assert (E : SFleb (Prim2SF y) (Prim2SF x) = true <->
              (SFltb (Prim2SF y) (Prim2SF x) = true \/ SFeqb (Prim2SF y) (Prim2SF x) = true)).
  { unfold SFleb, SFltb, SFeqb.
    destruct (SFcompare (Prim2SF y) (Prim2SF x)) as [[]|]; intuition discriminate. }
  rewrite E, SFltb_rank, SFeqb_rank by assumption.
  destruct (rank (Prim2SF x)) as [[a1 a2] a3], (rank (Prim2SF y)) as [[b1 b2] b3].
  unfold lex_lt. split.
  - intros [H|H]; [lia | injection H; intros; lia].
  - intros H.
    destruct (Z.eq_dec b1 a1) as [->|]; [|left; lia].
    destruct (Z.eq_dec b2 a2) as [->|]; [|left; lia].
    destruct (Z.eq_dec b3 a3) as [->|]; [|left; lia].
    now right.
Qed.

Lemma is_zero_spec x : is_zero x = true -> exists s, Prim2SF x = S754_zero s.
Proof.
  unfold is_zero. rewrite FloatAxioms.eqb_spec.
  change (Prim2SF zero) with (S754_zero false).
  destruct (Prim2SF x) as [s|s| |s m e]; simpl.
  - eauto.
  - destruct s; discriminate.
  - discriminate.
  - destruct s; discriminate.
Qed.

Lemma is_finite_spec x :
  is_finite x = false <-> (Prim2SF x = S754_nan \/ exists s, Prim2SF x = S754_infinity s).
Proof.
  unfold is_finite. rewrite negb_false_iff, orb_true_iff, is_nan_spec.
  unfold is_infinity. rewrite FloatAxioms.eqb_spec, FloatAxioms.abs_spec.
  change (Prim2SF infinity) with (S754_infinity false).
  destruct (Prim2SF x) as [s|s| |s m e]; simpl.
  - split; [intros [?|?]; discriminate | intros [?|[? ?]]; discriminate].
  - split; [eauto | auto].
  - split; auto.
  - split; [intros [?|?]; discriminate | intros [?|[? ?]]; discriminate].
Qed.

(** Dividing by a product one of whose factors is a zero never gives a
    finite number: the product is a zero or NaN, and [x / 0] is an infinity
    or NaN. *)
Lemma div_zero_product x a b :
  is_zero a = true \/ is_zero b = true ->
  is_finite (x / (a * b))%float = false.
Proof.
  intros H. apply is_finite_spec. rewrite FloatAxioms.div_spec, FloatAxioms.mul_spec.
  assert (Hd : SF64mul (Prim2SF a) (Prim2SF b) = S754_nan \/
               exists s, SF64mul (Prim2SF a) (Prim2SF b) = S754_zero s).
  { destruct H as [H|H]; apply is_zero_spec in H as [s ->].
    - destruct (Prim2SF b); simpl; eauto.
    - destruct (Prim2SF a); simpl; eauto. }
  destruct Hd as [-> | [s ->]].
  - left. destruct (Prim2SF x); reflexivity.
  - destruct (Prim2SF x); simpl; eauto.
Qed.

End FloatFacts.

(* ===================================================================== *)
(** ** The sort: a stable, descending permutation *)

Section Sorting.
Context {A : Type} (key : A -> float).

Lemma insert_desc_perm x l : Permutation (insert_desc key x l) (x :: l).
Proof.
  induction l as [|y l IH]; simpl; [reflexivity|].
  destruct (key x <? key y)%float; [|reflexivity].
  rewrite IH. apply perm_swap.
Qed.

Lemma list_sort_reverse_perm l : Permutation (list_sort_reverse key l) l.
Proof.
  induction l as [|x l IH]; simpl; [reflexivity|].
  rewrite insert_desc_perm. now constructor.
Qed.

Lemma list_sort_reverse_length l : length (list_sort_reverse key l) = length l.
Proof. apply Permutation_length, list_sort_reverse_perm. Qed.

(** [pos] is the position an element had before the sort. *)
Context (pos : A -> nat).

(** [a] may stand before [b] in the result: its key is not smaller, and on
    a tie it came first. *)
Definition precedes (a b : A) : Prop :=
  (key b <=? key a)%float = true /\
  ((key a =? key b)%float = true -> pos a < pos b).

Lemma insert_desc_sorted x l :
  is_nan (key x) = false ->
  Forall (fun a => is_nan (key a) = false) l ->
  Forall (fun a => pos x < pos a) l ->
  StronglySorted precedes l ->
  StronglySorted precedes (insert_desc key x l).
Proof.
  intros Hx Hnan Hpos Hs.
  induction Hs as [|y l Hs IH Hy]; simpl.
  - repeat constructor.
  - apply Forall_cons_iff in Hnan as [Hny Hnan].
    apply Forall_cons_iff in Hpos as [Hpy Hpos].
    destruct (key x <? key y)%float eqn:Hlt.
    + constructor; [now apply IH|].
      eapply Permutation_Forall; [symmetry; apply insert_desc_perm|].
      constructor; [|assumption].
      split.
      * apply FloatFacts.leb_not_ltb; auto. now apply FloatFacts.ltb_asym.
      * intros Heq. apply FloatFacts.tie_eqb in Heq as [_ Heq]; auto. congruence.
    + assert (Hxy : precedes x y).
      { split; [now apply FloatFacts.leb_not_ltb|auto]. }
      constructor; [now constructor|].
      constructor; [assumption|].
      rewrite Forall_forall in Hy, Hnan, Hpos |- *.
      intros z Hz. specialize (Hy z Hz) as [Hyz _].
      split; [|intros _; now apply Hpos].
      apply FloatFacts.leb_not_ltb; auto.
      apply FloatFacts.ltb_negtrans with (key y); auto.
      apply FloatFacts.leb_not_ltb; auto.
Qed.

(** The sort of a list given in increasing positions whose keys are not NaN
    is descending, and stable. *)
Lemma list_sort_reverse_sorted l :
  Forall (fun a => is_nan (key a) = false) l ->
  StronglySorted (fun a b => pos a < pos b) l ->
  StronglySorted precedes (list_sort_reverse key l).
Proof.
  intros Hnan Hs. induction Hs as [|x l Hs IH Hx]; simpl.
  - constructor.
  - apply Forall_cons_iff in Hnan as [Hnx Hnan].
    apply insert_desc_sorted; auto.
    + eapply Permutation_Forall; [symmetry; apply list_sort_reverse_perm|assumption].
    + eapply Permutation_Forall; [symmetry; apply list_sort_reverse_perm|assumption].
Qed.

End Sorting.

(** Sorting commutes with a map that keeps the keys. *)
Lemma list_sort_reverse_map {A B} (key : B -> float) (f : A -> B) (l : list A) :
  list_sort_reverse key (map f l) = map f (list_sort_reverse (fun a => key (f a)) l).
Proof.
  induction l as [|x l IH]; simpl; [reflexivity|].
  rewrite IH. generalize (list_sort_reverse (fun a => key (f a)) l) as s.
  induction s as [|y s IHs]; simpl; [reflexivity|].
  destruct (key (f x) <? key (f y))%float; simpl; [now rewrite IHs | reflexivity].
Qed.

(* ===================================================================== *)
(** ** Properties of [SimpleRAG] *)

Module rag_properties.
Import simple_rag_demo.

(** *** What each method computes *)

Lemma generate_embedding_run text w :
  _generate_embedding text w =
  (Returns (map (random w) (seq (drawn w) 100)), set_drawn (drawn w + 100) w).
Proof. reflexivity. Qed.

(** The state [add_document] leaves. *)
Definition added (doc_id content : string) (w : world) : world :=
  World (RAG (documents (self w) ++ [Doc doc_id content])
             (embeddings (self w) ++ [map (random w) (seq (drawn w) 100)])
             (<[doc_id := length (documents (self w))]> (index (self w))))
        (random w) (drawn w + 100)
        (trace w ++ [Stdout [Lit ("文档 " +:+ doc_id +:+ " 已添加到知识库")]]).

Lemma add_document_run doc_id content w :
  add_document doc_id content w = (Returns tt, added doc_id content w).
Proof.
  unfold add_document, added, bind, update, print, _generate_embedding,
    np_random_rand, ret, bind, log, set_self, set_drawn; simpl.
  rewrite length_app; simpl.
  replace (length (documents (self w)) + 1 - 1) with (length (documents (self w))) by lia.
  reflexivity.
Qed.

Lemma bind_self {A B} (m : M A) (k : A -> M B) w :
  self (snd (m w)) = self w ->
  (forall a w', self (snd (k a w')) = self w') ->
  self (snd (bind m k w)) = self w.
Proof.
  intros Hm Hk. unfold bind. destruct (m w) as [[a|e] w'] eqn:E; simpl in *.
  - now rewrite Hk.
  - assumption.
Qed.

Lemma retrieve_self q top_k w : self (snd (retrieve q top_k w)) = self w.
Proof.
  unfold retrieve. apply bind_self; [reflexivity|]. intros r w1.
  destruct (documents r); [reflexivity|].
  apply bind_self; [reflexivity|]. intros qe w2.
  apply bind_self; [reflexivity|]. intros r2 w3.
  apply bind_self; [reflexivity|]. intros sims w4.
  apply bind_self; [reflexivity|]. intros r3 w5. reflexivity.
Qed.

Lemma show_retrieved_self l : forall i w, self (snd (show_retrieved i l w)) = self w.
Proof.
  induction l as [|[content score] l IH]; intros i w; [reflexivity|]. simpl.
  apply bind_self; [reflexivity|]. intros _ w1.
  apply bind_self; [reflexivity|]. intros _ w2.
  apply bind_self; [apply IH|]. reflexivity.
Qed.

Lemma query_self question w : self (snd (query question w)) = self w.
Proof.
  unfold query.
  apply bind_self; [reflexivity|]. intros _ w1.
  apply bind_self; [reflexivity|]. intros _ w2.
  apply bind_self; [reflexivity|]. intros _ w3.
  apply bind_self; [apply retrieve_self|]. intros docs w4.
  destruct docs; [reflexivity|].
  apply bind_self; [reflexivity|]. intros _ w5.
  apply bind_self; [apply show_retrieved_self|]. intros ctx w6.
  apply bind_self; [reflexivity|]. intros _ w7.
  apply bind_self; [reflexivity|]. intros _ w8.
  apply bind_self; [reflexivity|]. reflexivity.
Qed.

(** The demonstration runs to its end: five documents stored, and
    [generate_answer] called once for each of the three questions. *)
Example main_runs :
  let w := snd (main (fresh (tape_of [[0.5%float]; [0%float; 0.5%float]]))) in
  raised (fst (main (fresh (tape_of [[0.5%float]; [0%float; 0.5%float]])))) = false /\
  length (documents (self w)) = 5 /\
  length (embeddings (self w)) = 5 /\
  generator_calls (trace w) = 3 /\
  drawn w = 800.
Proof. vm_compute. repeat split. Qed.

(** *** The invariant of the three containers *)

(** The lists pair up, every vector has 100 components, and an id of the
    index leads to a position that holds a document of that id. *)
Definition consistent (r : SimpleRAG) : Prop :=
  length (documents r) = length (embeddings r) /\
  Forall (fun e : vector => length e = 100) (embeddings r) /\
  forall (id : string) (i : nat),
    index r !! id = Some i ->
    exists d, documents r !! i = Some d /\ doc_id d = id.

Lemma consistent_init : consistent __init__.
Proof.
  split; [reflexivity|]. split; [constructor|].
  intros id i H. unfold __init__ in H. simpl in H.
  rewrite lookup_empty in H. discriminate.
Qed.

Lemma consistent_added doc_id content w :
  consistent (self w) -> consistent (self (added doc_id content w)).
Proof.
  intros (Hlen & Hdim & Hidx). unfold added, consistent.
  cbn [self documents embeddings index].
  split; [|split].
  - rewrite !length_app. cbn [length]. lia.
  - apply Forall_app. split; [assumption|].
    constructor; [|constructor]. now rewrite length_map, length_seq.
  - intros id i H.
    destruct (decide (doc_id = id)) as [->|Hne].
    + rewrite lookup_insert_eq in H. injection H as <-.
      exists (Doc id content). split; [|reflexivity].
      rewrite lookup_app_r by lia. now rewrite Nat.sub_diag.
    + rewrite lookup_insert_ne in H by assumption.
      destruct (Hidx id i H) as (d & Hd & Hid).
      exists d. split; [|assumption].
      rewrite lookup_app_l; [assumption|]. now apply lookup_lt_Some in Hd.
Qed.

Lemma reachable_consistent w : reachable w -> consistent (self w).
Proof.
  induction 1 as [w H|w id c _ IH|w q k _ IH|w q _ IH].
  - rewrite H. apply consistent_init.
  - rewrite add_document_run. now apply consistent_added.
  - now rewrite retrieve_self.
  - now rewrite query_self.
Qed.

(** *** Cosine similarity *)

Definition zero_vector : vector := repeat 0%float 100.
Definition half_vector : vector := repeat 0.5%float 100.

(** C1, as the code behaves: for two vectors of the same length of which at
    least one has norm zero, [_cosine_similarity] raises nothing (no
    [DegenerateVectorError] in particular): it carries out the division
    [dot(a,b) / (norm(a) * norm(b))] and returns its IEEE-754 result, which
    is an infinity or NaN. *)
Theorem cosine_similarity_zero_norm (vec1 vec2 : vector) :
  length vec1 = length vec2 ->
  is_zero (np_linalg_norm vec1) = true \/ is_zero (np_linalg_norm vec2) = true ->
  exists r : float,
    _cosine_similarity vec1 vec2 = Returns r /\
    r = (dot_sum vec1 vec2 / (np_linalg_norm vec1 * np_linalg_norm vec2))%float /\
    is_finite r = false.
Proof.
  intros Hlen Hzero. eexists. split; [|split; [reflexivity|]].
  - unfold _cosine_similarity, np_dot.
    rewrite Hlen, Nat.eqb_refl. reflexivity.
  - now apply FloatFacts.div_zero_product.
Qed.

Lemma cosine_similarity_zero_norm_witness :
  length zero_vector = length half_vector /\
  (is_zero (np_linalg_norm zero_vector) = true \/
   is_zero (np_linalg_norm half_vector) = true) /\
  exists r : float,
    _cosine_similarity zero_vector half_vector = Returns r /\
    r = (dot_sum zero_vector half_vector /
         (np_linalg_norm zero_vector * np_linalg_norm half_vector))%float /\
    is_finite r = false.
Proof.
  split; [reflexivity|]. split; [left; vm_compute; reflexivity|].
  apply (cosine_similarity_zero_norm zero_vector half_vector).
  - reflexivity.
  - left. vm_compute. reflexivity.
Defined.

(** C1 as stated fails: the norm of the zero vector is zero, and its
    similarity with another vector is the value NaN, not an error. *)
Lemma cosine_similarity_zero_norm_returns :
  is_zero (np_linalg_norm zero_vector) = true /\
  _cosine_similarity zero_vector half_vector = Returns nan /\
  _cosine_similarity zero_vector half_vector <> Raises DegenerateVectorError.
Proof.
  assert (E : _cosine_similarity zero_vector half_vector = Returns nan)
    by (vm_compute; reflexivity).
  split; [vm_compute; reflexivity|]. split; [exact E|].
  rewrite E. discriminate.
Qed.

(** *** Ingestion *)

(** C10: [add_document] returns normally for every id and content, whether
    the id is already indexed or not and whether the content is empty or
    not; it appends one entry to [documents] and one to [embeddings], and
    maps the id to the new last position [len(documents) - 1], leaving the
    other ids of the index as they were. *)
Theorem add_document_appends (doc_id content : string) (w : world) :
  let w' := snd (add_document doc_id content w) in
  fst (add_document doc_id content w) = Returns tt /\
  documents (self w') = documents (self w) ++ [Doc doc_id content] /\
  (exists embedding, embeddings (self w') = embeddings (self w) ++ [embedding]) /\
  index (self w') !! doc_id = Some (length (documents (self w')) - 1) /\
  (forall id, id <> doc_id -> index (self w') !! id = index (self w) !! id).
Proof.
  rewrite add_document_run. unfold added. cbn [fst snd self documents embeddings index].
  split; [reflexivity|]. split; [reflexivity|]. split; [eauto|]. split.
  - rewrite lookup_insert_eq, length_app. cbn [length]. f_equal. lia.
  - intros id Hne. now rewrite lookup_insert_ne.
Qed.

(** C2, as the code behaves: inserting a document under an id that the
    index already holds does not fail.  The call returns normally and
    changes the state: the new document and its vector are appended to the
    two lists, which are otherwise as they were, so that the entry stored
    earlier under that id, document and vector, stays where it was; and the
    index, unchanged for the other ids, now leads from the id to the new last
    position. *)
Theorem add_document_duplicate (doc_id content : string) (w : world) (i : nat) :
  reachable w ->
  index (self w) !! doc_id = Some i ->
  let w' := snd (add_document doc_id content w) in
  fst (add_document doc_id content w) = Returns tt /\
  documents (self w') = documents (self w) ++ [Doc doc_id content] /\
  embeddings (self w') = embeddings (self w) ++ [map (random w) (seq (drawn w) 100)] /\
  length (documents (self w')) = S (length (documents (self w))) /\
  length (embeddings (self w')) = S (length (embeddings (self w))) /\
  (exists (d : document) (e : vector),
     documents (self w) !! i = Some d /\ simple_rag_demo.doc_id d = doc_id /\
     embeddings (self w) !! i = Some e /\
     documents (self w') !! i = Some d /\
     embeddings (self w') !! i = Some e) /\
  documents (self w') !! length (documents (self w)) = Some (Doc doc_id content) /\
  index (self w') = <[doc_id := length (documents (self w))]> (index (self w)) /\
  index (self w') !! doc_id = Some (length (documents (self w))) /\
  i < length (documents (self w)).
Proof.
  intros Hr Hi. apply reachable_consistent in Hr as (Hlen & _ & Hidx).
  destruct (Hidx _ _ Hi) as (d & Hd & Hid).
  assert (Hlt : i < length (documents (self w))) by (now apply lookup_lt_Some in Hd).
  destruct (lookup_lt_is_Some_2 (embeddings (self w)) i) as [e He];
    [now rewrite <- Hlen|].
  rewrite add_document_run. unfold added. cbn [fst snd self documents embeddings index].
  split; [reflexivity|]. split; [reflexivity|]. split; [reflexivity|].
  split; [rewrite length_app; cbn [length]; lia|].
  split; [rewrite length_app; cbn [length]; lia|].
  split.
  { exists d, e. repeat split; try assumption.
    - now rewrite lookup_app_l.
    - rewrite lookup_app_l; [assumption|]. now rewrite <- Hlen. }
  split; [rewrite lookup_app_r by lia; now rewrite Nat.sub_diag|].
  split; [reflexivity|].
  split; [apply lookup_insert_eq|exact Hlt].
Qed.

(** An index that holds one document, of id [d1]. *)
Definition one_document : world :=
  snd (add_document "d1" "cats are mammals" (fresh (tape_of [[0.5%float]]))).

Lemma one_document_reachable : reachable one_document.
Proof. apply reach_add, reach_init. reflexivity. Qed.

Lemma one_document_index : index (self one_document) !! "d1" = Some 0.
Proof.
  unfold one_document. rewrite add_document_run. unfold added.
  cbn [self index]. apply lookup_insert_eq.
Qed.

Lemma add_document_duplicate_witness :
  reachable one_document /\
  index (self one_document) !! "d1" = Some 0 /\
  let w' := snd (add_document "d1" "dogs are mammals" one_document) in
  fst (add_document "d1" "dogs are mammals" one_document) = Returns tt /\
  documents (self w') = documents (self one_document) ++ [Doc "d1" "dogs are mammals"] /\
  embeddings (self w')
    = embeddings (self one_document)
        ++ [map (random one_document) (seq (drawn one_document) 100)] /\
  length (documents (self w')) = S (length (documents (self one_document))) /\
  length (embeddings (self w')) = S (length (embeddings (self one_document))) /\
  (exists (d : document) (e : vector),
     documents (self one_document) !! 0 = Some d /\ simple_rag_demo.doc_id d = "d1" /\
     embeddings (self one_document) !! 0 = Some e /\
     documents (self w') !! 0 = Some d /\
     embeddings (self w') !! 0 = Some e) /\
  documents (self w') !! length (documents (self one_document))
    = Some (Doc "d1" "dogs are mammals") /\
  index (self w')
    = <["d1" := length (documents (self one_document))]> (index (self one_document)) /\
  index (self w') !! "d1" = Some (length (documents (self one_document))) /\
  0 < length (documents (self one_document)).
Proof.
  split; [exact one_document_reachable|]. split; [exact one_document_index|].
  exact (add_document_duplicate "d1" "dogs are mammals" one_document 0
           one_document_reachable one_document_index).
Defined.

(** C2 as stated fails: [d1] is indexed, a second insertion under [d1]
    returns normally instead of raising [DuplicateIdError], and the state
    after it differs from the state before it. *)
Lemma add_document_duplicate_accepted :
  index (self one_document) !! "d1" = Some 0 /\
  fst (add_document "d1" "dogs are mammals" one_document) = Returns tt /\
  fst (add_document "d1" "dogs are mammals" one_document) <> Raises DuplicateIdError /\
  self (snd (add_document "d1" "dogs are mammals" one_document)) <> self one_document.
Proof.
  split; [exact one_document_index|].
  rewrite add_document_run. cbn [fst snd].
  split; [reflexivity|]. split; [discriminate|].
  intros H. apply (f_equal (fun r => length (documents r))) in H.
  vm_compute in H. discriminate.
Qed.

(** C6: in every state that the object reaches from its creation, by
    ingestions interleaved with searches and questions in any order,
    [len(documents) == len(embeddings)], and every id of the index leads to
    a position that exists in both lists (and whose document has that id). *)
Theorem reachable_paired (w : world) :
  reachable w ->
  length (documents (self w)) = length (embeddings (self w)) /\
  forall (id : string) (i : nat),
    index (self w) !! id = Some i ->
    (exists d, documents (self w) !! i = Some d /\ doc_id d = id) /\
    is_Some (embeddings (self w) !! i).
Proof.
  intros Hr. apply reachable_consistent in Hr as (Hlen & _ & Hidx).
  split; [assumption|]. intros id i Hi.
  destruct (Hidx id i Hi) as (d & Hd & Hid).
  split; [eauto|].
  apply lookup_lt_is_Some. rewrite <- Hlen. now apply lookup_lt_Some in Hd.
Qed.

Lemma reachable_paired_witness :
  reachable one_document /\
  length (documents (self one_document)) = length (embeddings (self one_document)) /\
  forall (id : string) (i : nat),
    index (self one_document) !! id = Some i ->
    (exists d, documents (self one_document) !! i = Some d /\ doc_id d = id) /\
    is_Some (embeddings (self one_document) !! i).
Proof.
  split; [exact one_document_reachable|].
  exact (reachable_paired one_document one_document_reachable).
Defined.

(** *** The embedding *)

(** C7, as the code behaves: [_generate_embedding] returns the next 100
    numbers of the random generator, whatever the text, and moves the
    generator past them.  From one generator state the result is the same
    for every text; a second invocation reads the following 100 numbers. *)
Theorem generate_embedding_random (text text' : string) (w : world) :
  let w1 := snd (_generate_embedding text w) in
  fst (_generate_embedding text w) = Returns (map (random w) (seq (drawn w) 100)) /\
  fst (_generate_embedding text w) = fst (_generate_embedding text' w) /\
  fst (_generate_embedding text w1) = Returns (map (random w) (seq (drawn w + 100) 100)) /\
  self w1 = self w /\ trace w1 = trace w.
Proof. repeat split. Qed.

(** A generator whose first 100 numbers are 0.25 and whose next are 0.5. *)
Definition quarter_then_half (n : nat) : float :=
  if Nat.ltb n 100 then 0.25%float else 0.5%float.

(** C7 as stated fails: two invocations on the same text, one after the
    other, return different vectors. *)
Lemma generate_embedding_twice_differs :
  let w := fresh quarter_then_half in
  fst (_generate_embedding "rockets use fuel" w) <>
  fst (_generate_embedding "rockets use fuel" (snd (_generate_embedding "rockets use fuel" w))).
Proof. vm_compute. intros H. discriminate H. Qed.

(** *** Answers *)

(** C9: the answer of [generate_answer] is the same for every context. *)
Theorem generate_answer_ignores_context (query : string) (c1 c2 : list string) :
  generate_answer query c1 = generate_answer query c2.
Proof. reflexivity. Qed.

Lemma generator_calls_app t1 t2 :
  generator_calls (t1 ++ t2) = generator_calls t1 + generator_calls t2.
Proof.
  induction t1 as [|[line|q c] t1 IH]; simpl; [reflexivity|assumption|now rewrite IH].
Qed.

Lemma retrieve_no_documents query top_k w :
  documents (self w) = [] -> retrieve query top_k w = (Returns [], w).
Proof.
  intros H. unfold retrieve, bind, get_self. now rewrite H.
Qed.

(** C5: on an index without documents [retrieve] returns the empty list,
    for every query and every [top_k]; it raises nothing, draws no random
    number and leaves the state as it was. *)
Theorem retrieve_empty_index (query : string) (top_k : Z) (w : world) :
  documents (self w) = [] ->
  fst (retrieve query top_k w) = Returns [] /\
  raised (fst (retrieve query top_k w)) = false /\
  snd (retrieve query top_k w) = w.
Proof.
  intros H. rewrite retrieve_no_documents by exact H. repeat split.
Qed.

Lemma retrieve_empty_index_witness :
  documents (self (fresh quarter_then_half)) = [] /\
  fst (retrieve "mammal pets" 2 (fresh quarter_then_half)) = Returns [] /\
  raised (fst (retrieve "mammal pets" 2 (fresh quarter_then_half))) = false /\
  snd (retrieve "mammal pets" 2 (fresh quarter_then_half)) = fresh quarter_then_half.
Proof.
  split; [reflexivity|].
  apply (retrieve_empty_index "mammal pets" 2 (fresh quarter_then_half)).
  reflexivity.
Defined.

(** C4: on an index without documents [query] returns the fixed sentence
    that the knowledge base has no relevant information, for every
    question, and [generate_answer] is not called: the run records no call
    of it, only the three lines printed before the search. *)
Theorem query_empty_index (question : string) (w : world) :
  documents (self w) = [] ->
  fst (query question w) = Returns "抱歉，知识库中没有相关信息。" /\
  generator_calls (trace (snd (query question w))) = generator_calls (trace w) /\
  trace (snd (query question w)) =
    trace w ++ [Stdout [Lit (nl +:+ "问题：" +:+ question)];
                Stdout [Lit (str_repeat "=" 50)];
                Stdout [Lit "1. 检索相关文档..."]].
Proof.
  intros H.
  assert (E : query question w =
              (Returns no_information,
               log (Stdout [Lit "1. 检索相关文档..."])
                 (log (Stdout [Lit (str_repeat "=" 50)])
                    (log (Stdout [Lit (nl +:+ "问题：" +:+ question)]) w)))).
  { unfold query, bind at 1 2 3 4. cbn [print].
    rewrite retrieve_no_documents by exact H. reflexivity. }
  rewrite E. cbn [fst snd log trace].
  split; [reflexivity|].
  rewrite <- !app_assoc. cbn [app].
  split; [|reflexivity].
  rewrite generator_calls_app. simpl. lia.
Qed.

Lemma query_empty_index_witness :
  documents (self (fresh quarter_then_half)) = [] /\
  fst (query "什么是人工智能？" (fresh quarter_then_half))
    = Returns "抱歉，知识库中没有相关信息。" /\
  generator_calls (trace (snd (query "什么是人工智能？" (fresh quarter_then_half))))
    = generator_calls (trace (fresh quarter_then_half)) /\
  trace (snd (query "什么是人工智能？" (fresh quarter_then_half))) =
    trace (fresh quarter_then_half)
      ++ [Stdout [Lit (nl +:+ "问题：" +:+ "什么是人工智能？")];
          Stdout [Lit (str_repeat "=" 50)];
          Stdout [Lit "1. 检索相关文档..."]].
Proof.
  split; [reflexivity|].
  apply (query_empty_index "什么是人工智能？" (fresh quarter_then_half)).
  reflexivity.
Defined.

(** *** Search *)

(** The value [_cosine_similarity] returns on vectors of one length. *)
Definition cosine (q e : vector) : float :=
  (dot_sum q e / (np_linalg_norm q * np_linalg_norm e))%float.

(** The vector [retrieve] draws for the query in the state [w]. *)
Definition query_vector (w : world) : vector :=
  map (random w) (seq (drawn w) 100).

(** The stored pairs of a document and its vector, with their positions. *)
Definition entries (r : SimpleRAG) : list (nat * (document * vector)) :=
  enumerate 0 (combine (documents r) (embeddings r)).

Definition position (x : nat * (document * vector)) : nat := fst x.
Definition content_of (x : nat * (document * vector)) : string := doc_content (fst (snd x)).
Definition score_of (q : vector) (x : nat * (document * vector)) : float :=
  cosine q (snd (snd x)).

Lemma cosine_similarity_run q e :
  length q = length e -> _cosine_similarity q e = Returns (cosine q e).
Proof.
  intros H. unfold _cosine_similarity, np_dot. now rewrite H, Nat.eqb_refl.
Qed.

Lemma score_all_run q embs :
  Forall (fun e : vector => length e = length q) embs ->
  score_all q embs = Returns (enumerate 0 (map (cosine q) embs)).
Proof.
  unfold score_all, enumerate. rewrite length_map. generalize 0 as s.
  induction embs as [|e embs IH]; intros s Hall; [reflexivity|].
  apply Forall_cons_iff in Hall as [He Hall].
  cbn [length seq combine omap map].
  rewrite cosine_similarity_run by (symmetry; exact He).
  cbn [obind]. now rewrite IH.
Qed.

Lemma enumerate_scores q docs : forall embs s,
  length docs = length embs ->
  combine (seq s (length (map (cosine q) embs))) (map (cosine q) embs)
  = map (fun x => (position x, score_of q x))
        (combine (seq s (length (combine docs embs))) (combine docs embs)).
Proof.
  induction docs as [|d docs IH]; intros [|e embs] s Hlen; try discriminate; [reflexivity|].
  cbn [length seq combine map]. f_equal. apply IH. now injection Hlen.
Qed.

Lemma entries_positions docs : forall (embs : list vector) s,
  StronglySorted (fun a b => position a < position b)
    (combine (seq s (length (combine docs embs))) (combine docs embs)) /\
  Forall (fun x => s <= position x)
    (combine (seq s (length (combine docs embs))) (combine docs embs)).
Proof.
  induction docs as [|d docs IH]; intros [|e embs] s;
    try solve [split; constructor].
  cbn [length seq combine].
  destruct (IH embs (S s)) as [Hs Hge]. split.
  - constructor; [assumption|].
    eapply Forall_impl; [exact Hge|]. unfold position. simpl. intros x Hx. lia.
  - constructor; [unfold position; simpl; lia|].
    eapply Forall_impl; [exact Hge|]. intros x Hx. cbv beta in *. lia.
Qed.

Lemma entries_lookup docs : forall (embs : list vector) s,
  Forall (fun x => docs !! (position x - s) = Some (fst (snd x)) /\ s <= position x)
    (combine (seq s (length (combine docs embs))) (combine docs embs)).
Proof.
  induction docs as [|d docs IH]; intros [|e embs] s; try solve [constructor].
  cbn [length seq combine]. constructor.
  - unfold position. simpl. rewrite Nat.sub_diag. split; [reflexivity|lia].
  - fold (@length (document * vector)).
    eapply Forall_impl; [exact (IH embs (S s))|].
    cbv beta. intros x [Hx Hs]. split; [|lia].
    replace (position x - s) with (S (position x - S s)) by lia. exact Hx.
Qed.

Lemma collect_run docs q l :
  Forall (fun x => docs !! position x = Some (fst (snd x))) l ->
  collect docs (map (fun x => (position x, score_of q x)) l)
  = Returns (map (fun x => (content_of x, score_of q x)) l).
Proof.
  induction 1 as [|x l Hx _ IH]; [reflexivity|].
  unfold collect in *. cbn [map omap]. unfold subscript at 1.
  rewrite Hx. cbn [obind]. now rewrite IH.
Qed.

Lemma retrieve_result query top_k w :
  documents (self w) <> [] ->
  fst (retrieve query top_k w) =
  obind (score_all (query_vector w) (embeddings (self w))) (fun similarities =>
  collect (documents (self w)) (slice_to (list_sort_reverse snd similarities) top_k)).
Proof.
  intros Hne. unfold retrieve, bind at 1. cbn [get_self].
  destruct (documents (self w)) as [|d ds] eqn:Hd; [congruence|].
  unfold bind at 1. rewrite generate_embedding_run.
  unfold bind at 1. cbn [get_self].
  unfold bind at 1, lift at 1. cbn [self set_drawn].
  fold (query_vector w).
  destruct (score_all (query_vector w) (embeddings (self w))) as [sims|e]; [|reflexivity].
  unfold bind, get_self, lift, set_drawn. cbn [self fst obind]. now rewrite Hd.
Qed.

(** C3, as the code behaves: in every reachable state, for every query
    and every [top_k >= 0], [retrieve] returns normally.  Its results are
    the first [top_k] elements of a ranking of all stored entries (a
    permutation of them), each given as the content of the document and the
    cosine similarity between the query vector and the stored vector; so
    there are [min(top_k, len(documents))] results, at most [top_k] and at
    most as many as there are documents.  When no similarity is NaN the
    ranking is by non-increasing score and entries of equal score stand in
    insertion order. *)
Theorem retrieve_ranked (query : string) (top_k : Z) (w : world) :
  reachable w ->
  (0 <= top_k)%Z ->
  let q := query_vector w in
  exists (ranked : list (nat * (document * vector))) (results : list (string * float)),
    fst (retrieve query top_k w) = Returns results /\
    Permutation ranked (entries (self w)) /\
    results = map (fun x => (content_of x, score_of q x)) (firstn (Z.to_nat top_k) ranked) /\
    length results = Nat.min (Z.to_nat top_k) (length (documents (self w))) /\
    (Z.of_nat (length results) <= top_k)%Z /\
    length results <= length (documents (self w)) /\
    (Forall (fun x => is_nan (score_of q x) = false) (entries (self w)) ->
     StronglySorted (precedes (score_of q) position) ranked).
Proof.
  intros Hr Hk q. apply reachable_consistent in Hr as (Hlen & Hdim & _).
  set (ranked := list_sort_reverse (score_of q) (entries (self w))).
  assert (Hperm : Permutation ranked (entries (self w)))
    by apply list_sort_reverse_perm.
  assert (Hn : length ranked = length (documents (self w))).
  { rewrite (Permutation_length Hperm). unfold entries, enumerate.
    rewrite length_combine, length_seq, Nat.min_id, length_combine. lia. }
  exists ranked, (map (fun x => (content_of x, score_of q x)) (firstn (Z.to_nat top_k) ranked)).
  assert (Hcount : length (map (fun x => (content_of x, score_of q x))
                             (firstn (Z.to_nat top_k) ranked))
                   = Nat.min (Z.to_nat top_k) (length (documents (self w)))).
  { now rewrite length_map, length_firstn, Hn. }
  split; [|split; [exact Hperm|split; [reflexivity|split; [exact Hcount|split; [|split]]]]].
  - assert (Hcase : documents (self w) = [] \/ documents (self w) <> []).
    { destruct (documents (self w)); [now left|now right]. }
    destruct Hcase as [Hd|Hd].
    + rewrite retrieve_no_documents by exact Hd.
      assert (E : ranked = []).
      { apply length_zero_iff_nil. now rewrite Hn, Hd. }
      rewrite E. now rewrite firstn_nil.
    + rewrite retrieve_result by exact Hd.
      rewrite score_all_run.
      2:{ eapply Forall_impl; [exact Hdim|]. intros e He.
          unfold query_vector. now rewrite length_map, length_seq. }
      cbn [obind]. unfold enumerate.
      rewrite (enumerate_scores (query_vector w) (documents (self w)))
        by exact Hlen.
      rewrite list_sort_reverse_map. cbn [snd].
      fold (@enumerate (document * vector) 0
              (combine (documents (self w)) (embeddings (self w)))).
      fold (entries (self w)).
      change (list_sort_reverse (fun a => score_of (query_vector w) a) (entries (self w)))
        with ranked.
      unfold slice_to.
      destruct (0 <=? top_k)%Z eqn:E; [|apply Z.leb_gt in E; lia].
      rewrite firstn_map.
      apply collect_run.
      apply Forall_take.
      eapply Permutation_Forall; [symmetry; exact Hperm|].
      eapply Forall_impl;
        [exact (entries_lookup (documents (self w)) (embeddings (self w)) 0)|].
      cbv beta. intros x [Hx _]. now rewrite Nat.sub_0_r in Hx.
  - rewrite Hcount. lia.
  - rewrite Hcount. lia.
  - intros Hnan. apply list_sort_reverse_sorted; [exact Hnan|].
    apply (entries_positions (documents (self w)) (embeddings (self w)) 0).
Qed.

(** Three documents whose vectors are (0.5, 0, 0, ...), (0, 0.5, 0, ...)
    and (0.5, 0.5, 0, ...); the next vector of the generator, which a
    search takes for the query, is (0.5, 0, 0, ...). *)
Definition three_documents : world :=
  snd (add_document "d3" "rockets use fuel"
    (snd (add_document "d2" "dogs are mammals"
      (snd (add_document "d1" "cats are mammals"
        (fresh (tape_of [[0.5%float]; [0%float; 0.5%float];
                         [0.5%float; 0.5%float]; [0.5%float]]))))))).

Lemma three_documents_reachable : reachable three_documents.
Proof. do 3 apply reach_add. apply reach_init. reflexivity. Qed.

Lemma retrieve_ranked_witness :
  reachable three_documents /\ (0 <= 2)%Z /\
  let q := query_vector three_documents in
  exists (ranked : list (nat * (document * vector))) (results : list (string * float)),
    fst (retrieve "mammal pets" 2 three_documents) = Returns results /\
    Permutation ranked (entries (self three_documents)) /\
    results = map (fun x => (content_of x, score_of q x)) (firstn (Z.to_nat 2) ranked) /\
    length results = Nat.min (Z.to_nat 2) (length (documents (self three_documents))) /\
    (Z.of_nat (length results) <= 2)%Z /\
    length results <= length (documents (self three_documents)) /\
    (Forall (fun x => is_nan (score_of q x) = false) (entries (self three_documents)) ->
     StronglySorted (precedes (score_of q) position) ranked).
Proof.
  split; [exact three_documents_reachable|]. split; [lia|].
  apply (retrieve_ranked "mammal pets" 2 three_documents).
  - exact three_documents_reachable.
  - lia.
Defined.

(** The run of the witness: the first document scores 1, the third about
    0.707 and the second 0; none of the scores is NaN. *)
Example retrieve_three_documents :
  option_map (map fst)
    (match fst (retrieve "mammal pets" 2 three_documents) with
     | Returns l => Some l
     | Raises _ => None
     end)
  = Some ["cats are mammals"; "rockets use fuel"] /\
  forallb (fun x => negb (is_nan (score_of (query_vector three_documents) x)))
          (entries (self three_documents)) = true.
Proof. vm_compute. split; reflexivity. Qed.

(** The number of results of a search that returned. *)
Definition result_count (o : outcome (list (string * float))) : option nat :=
  match o with
  | Returns l => Some (length l)
  | Raises _ => None
  end.

(** C3 as stated fails: [top_k] is an [int], and with [top_k = -1] the
    slice [similarities[:top_k]] drops the last element only, so that a
    search over three documents returns two results, more than [top_k]. *)
Lemma retrieve_negative_top_k :
  result_count (fst (retrieve "mammal pets" (-1) three_documents)) = Some 2 /\
  ~ (Z.of_nat 2 <= -1)%Z.
Proof. split; [vm_compute; reflexivity | lia]. Qed.

(** Why the order is claimed for scores that are not NaN only.  The
    second vector stored here is the zero vector, its score is NaN, every
    comparison with it is false, and the sort leaves the three entries
    where they were: the score 1 comes after the score 0.707. *)
Definition with_zero_vector : world :=
  snd (add_document "d3" "cats are mammals"
    (snd (add_document "d2" "dogs are mammals"
      (snd (add_document "d1" "rockets use fuel"
        (fresh (tape_of [[0.5%float; 0.5%float]; []; [0.5%float]; [0.5%float]]))))))).

Example retrieve_nan_keeps_order :
  exists s : float,
    fst (retrieve "mammal pets" 3 with_zero_vector)
    = Returns [("rockets use fuel", s); ("dogs are mammals", nan); ("cats are mammals", 1%float)]
    /\ (s <? 1)%float = true.
Proof. eexists. vm_compute. split; reflexivity. Qed.

End rag_properties.

(* ===================================================================== *)
(** ** Properties of [test_api.py] *)

Module api_properties.
Import test_api.

Definition missing_key : string := "❌ 错误: 未找到ANTHROPIC_API_KEY环境变量".
Definition missing_url : string := "❌ 错误: 未找到ANTHROPIC_BASE_URL环境变量".

(** C8: when the API key or the base URL is given neither by the
    environment nor by the [.env] file, [main] prints, after its banner, the
    line that says which of the two was not found, sends no request, and the
    process ends with exit status 1. *)
Theorem missing_configuration_exits (p : process) :
  (environ p ∪ dotenv p) !! "ANTHROPIC_API_KEY" = None \/
  (environ p ∪ dotenv p) !! "ANTHROPIC_BASE_URL" = None ->
  exists err : string,
    (err = missing_key \/ err = missing_url) /\
    fst (main p) = 1%Z /\
    stdout (snd (main p)) =
      stdout p ++ [[Lit "🚀 开始RAG API测试"]; [Lit (str_repeat "=" 50)]; [Lit err]] /\
    requests (snd (main p)) = requests p.
Proof.
  intros H. destruct p as [env de svc out reqs].
  unfold main, load_environment, getenv, load_dotenv, print.
  cbn [environ dotenv service stdout requests] in *.
  destruct ((env ∪ de) !! "ANTHROPIC_API_KEY") as [[|a k]|] eqn:Hk;
    cbn [falsy default fst snd stdout requests].
  - exists missing_key. rewrite <- !app_assoc. now repeat split; try left.
  - destruct ((env ∪ de) !! "ANTHROPIC_BASE_URL") as [[|b u]|] eqn:Hu;
      cbn [falsy default fst snd stdout requests].
    + exists missing_url. rewrite <- !app_assoc. now repeat split; try right.
    + destruct H; discriminate.
    + exists missing_url. rewrite <- !app_assoc. now repeat split; try right.
  - exists missing_key. rewrite <- !app_assoc. now repeat split; try left.
Qed.

(** A process whose [.env] file gives the key and not the URL. *)
Definition only_key : process :=
  Process ∅ {["ANTHROPIC_API_KEY" := "sk-ant-0123456789"]}
          (fun _ => inl (APIConnectionError "Connection error.")) [] [].

Lemma missing_configuration_exits_witness :
  ((environ only_key ∪ dotenv only_key) !! "ANTHROPIC_API_KEY" = None \/
   (environ only_key ∪ dotenv only_key) !! "ANTHROPIC_BASE_URL" = None) /\
  exists err : string,
    (err = missing_key \/ err = missing_url) /\
    fst (main only_key) = 1%Z /\
    stdout (snd (main only_key)) =
      stdout only_key
        ++ [[Lit "🚀 开始RAG API测试"]; [Lit (str_repeat "=" 50)]; [Lit err]] /\
    requests (snd (main only_key)) = requests only_key.
Proof.
  assert (H : (environ only_key ∪ dotenv only_key) !! "ANTHROPIC_API_KEY" = None \/
              (environ only_key ∪ dotenv only_key) !! "ANTHROPIC_BASE_URL" = None)
    by (right; vm_compute; reflexivity).
  split; [exact H|].
  exact (missing_configuration_exits only_key H).
Defined.

(** With both values configured the script goes on to the service: here
    the connection fails, which is reported, and the exit status is 1 too. *)
Example configured_run :
  let p := Process {["ANTHROPIC_BASE_URL" := "https://api.example.test"]}
                   {["ANTHROPIC_API_KEY" := "sk-ant-0123456789"]}
                   (fun _ => inl (APIConnectionError "Connection error.")) [] [] in
  fst (main p) = 1%Z /\
  length (requests (snd (main p))) = 1 /\
  nth 2 (stdout (snd (main p))) [] = [Lit "✅ API Key: sk-ant-012...6789"].
Proof. vm_compute. repeat split. Qed.

End api_properties.

(* ===================================================================== *)
(** ** Further properties of [SimpleRAG] *)

Module rag_extras.
Import simple_rag_demo rag_properties.

(** *** Cosine similarity is symmetric *)

Lemma SFmul_comm x y : SF64mul x y = SF64mul y x.
Proof.
  unfold SF64mul, SFmul.
  destruct x as [sx|sx| |sx mx ex], y as [sy|sy| |sy my ey];
    try reflexivity; try (now rewrite xorb_comm).
  rewrite xorb_comm.
  replace (PosDef.Pos.mul mx my) with (PosDef.Pos.mul my mx)
    by (change (Pos.mul my mx = Pos.mul mx my); apply Pos.mul_comm).
  replace (IntDef.Z.add ex ey) with (IntDef.Z.add ey ex)
    by (change (Z.add ey ex = Z.add ex ey); apply Z.add_comm).
  reflexivity.
Qed.

Lemma float_mul_comm (x y : float) : (x * y)%float = (y * x)%float.
Proof.
  apply Prim2SF_inj. rewrite !FloatAxioms.mul_spec. apply SFmul_comm.
Qed.

Lemma dot_sum_comm (a b : vector) : dot_sum a b = dot_sum b a.
Proof.
  unfold dot_sum. generalize 0%float as acc. revert b.
  induction a as [|x a IH]; intros [|y b] acc; try reflexivity.
  cbn [combine fold_left fst snd]. rewrite (float_mul_comm x y). apply IH.
Qed.

(** X1: [_cosine_similarity(a, b)] and [_cosine_similarity(b, a)] have the
    same outcome, bit for bit: the same float, or [ValueError] both ways
    when the lengths differ. *)
Theorem cosine_similarity_symmetric (vec1 vec2 : vector) :
  _cosine_similarity vec1 vec2 = _cosine_similarity vec2 vec1.
Proof.
  unfold _cosine_similarity, np_dot.
  rewrite (Nat.eqb_sym (length vec2) (length vec1)).
  destruct (Nat.eqb (length vec1) (length vec2)); [|reflexivity].
  cbn [obind]. rewrite (dot_sum_comm vec1 vec2).
  now rewrite (float_mul_comm (np_linalg_norm vec1) (np_linalg_norm vec2)).
Qed.

(** *** Search leaves the knowledge base alone *)

Lemma retrieve_state query top_k w :
  snd (retrieve query top_k w) =
  match documents (self w) with
  | [] => w
  | _ :: _ => set_drawn (drawn w + 100) w
  end.
Proof.
  unfold retrieve, bind at 1. cbn [get_self].
  destruct (documents (self w)) as [|d ds]; [reflexivity|].
  unfold bind at 1. rewrite generate_embedding_run.
  unfold bind at 1. cbn [get_self].
  unfold bind at 1, lift at 1.
  destruct (score_all _ _) as [sims|e]; [|reflexivity].
  unfold bind, get_self, lift. reflexivity.
Qed.

(** X2: in every state, whatever it returns or raises, [retrieve] changes
    neither [documents], [embeddings] nor [index] and prints nothing; it
    takes 100 numbers from the random generator when there is a document and
    none when there is not. *)
Theorem retrieve_read_only (query : string) (top_k : Z) (w : world) :
  let w' := snd (retrieve query top_k w) in
  self w' = self w /\ trace w' = trace w /\ random w' = random w /\
  drawn w' = match documents (self w) with [] => drawn w | _ :: _ => drawn w + 100 end.
Proof.
  cbv zeta. rewrite retrieve_state.
  destruct (documents (self w)); repeat split.
Qed.

(** *** Search for every [top_k] *)

(** The stored entries sorted by [list_sort_reverse] on their scores in the
    state [w]: the order of [retrieve] when no score is NaN. *)
Definition ranking (w : world) : list (nat * (document * vector)) :=
  list_sort_reverse (score_of (query_vector w)) (entries (self w)).

(** A ranking of the stored entries as far as the sort of Python fixes it:
    a permutation of all of them that, when no score is NaN, is in
    non-increasing score order with ties in insertion order. *)
Definition is_ranking (w : world) (ranked : list (nat * (document * vector))) : Prop :=
  Permutation ranked (entries (self w)) /\
  (Forall (fun x => is_nan (score_of (query_vector w) x) = false) (entries (self w)) ->
   StronglySorted (precedes (score_of (query_vector w)) position) ranked).

Lemma ranking_is_ranking w : is_ranking w (ranking w).
Proof.
  split; [apply list_sort_reverse_perm|].
  intros Hnan. apply list_sort_reverse_sorted; [exact Hnan|].
  apply (entries_positions (documents (self w)) (embeddings (self w)) 0).
Qed.

(** What [retrieve] returns for an entry. *)
Definition result_of (w : world) (x : nat * (document * vector)) : string * float :=
  (content_of x, score_of (query_vector w) x).

Lemma slice_to_map {A B} (f : A -> B) (l : list A) (k : Z) :
  slice_to (map f l) k = map f (slice_to l k).
Proof.
  unfold slice_to. rewrite length_map.
  destruct (0 <=? k)%Z; apply firstn_map.
Qed.

Lemma slice_to_Forall {A} (P : A -> Prop) (l : list A) (k : Z) :
  Forall P l -> Forall P (slice_to l k).
Proof.
  intros H. unfold slice_to. destruct (0 <=? k)%Z; now apply Forall_take.
Qed.

Lemma entries_length r :
  length (documents r) = length (embeddings r) ->
  length (entries r) = length (documents r).
Proof.
  intros H. unfold entries, enumerate.
  rewrite length_combine, length_seq, Nat.min_id, length_combine. lia.
Qed.

Lemma retrieve_sliced query top_k w :
  consistent (self w) ->
  fst (retrieve query top_k w) = Returns (map (result_of w) (slice_to (ranking w) top_k)).
Proof.
  intros (Hlen & Hdim & _).
  assert (Hcase : documents (self w) = [] \/ documents (self w) <> []).
  { destruct (documents (self w)); [now left|now right]. }
  destruct Hcase as [Hd|Hd].
  - rewrite retrieve_no_documents by exact Hd.
    assert (E : ranking w = []).
    { apply length_zero_iff_nil. unfold ranking.
      rewrite list_sort_reverse_length, entries_length by exact Hlen. now rewrite Hd. }
    rewrite E. unfold slice_to. cbn [length].
    destruct (0 <=? top_k)%Z; now rewrite firstn_nil.
  - rewrite retrieve_result by exact Hd.
    rewrite score_all_run.
    2:{ eapply Forall_impl; [exact Hdim|]. intros e He.
        unfold query_vector. now rewrite length_map, length_seq. }
    cbn [obind]. unfold enumerate.
    rewrite (enumerate_scores (query_vector w) (documents (self w))) by exact Hlen.
    rewrite list_sort_reverse_map. cbn [snd].
    fold (@enumerate (document * vector) 0
            (combine (documents (self w)) (embeddings (self w)))).
    fold (entries (self w)).
    change (list_sort_reverse (fun a => score_of (query_vector w) a) (entries (self w)))
      with (ranking w).
    rewrite slice_to_map. unfold result_of.
    apply collect_run. apply slice_to_Forall.
    eapply Permutation_Forall; [symmetry; apply list_sort_reverse_perm|].
    eapply Forall_impl;
      [exact (entries_lookup (documents (self w)) (embeddings (self w)) 0)|].
    cbv beta. intros x [Hx _]. now rewrite Nat.sub_0_r in Hx.
Qed.

(** X3: in every reachable state [retrieve] returns normally for every
    [top_k], negative ones included: neither [np.dot] nor the subscript
    [self.documents[i]] raises.  What it returns is the slice [[:top_k]] of a
    ranking of all stored entries: a permutation of them, by non-increasing
    score and stable when no score is NaN. *)
Theorem retrieve_never_raises (query : string) (top_k : Z) (w : world) :
  reachable w ->
  raised (fst (retrieve query top_k w)) = false /\
  exists ranked : list (nat * (document * vector)),
    is_ranking w ranked /\
    fst (retrieve query top_k w) = Returns (map (result_of w) (slice_to ranked top_k)).
Proof.
  intros Hr. apply reachable_consistent in Hr.
  rewrite retrieve_sliced by exact Hr.
  split; [reflexivity|]. exists (ranking w).
  split; [apply ranking_is_ranking|reflexivity].
Qed.

Lemma retrieve_never_raises_witness :
  reachable three_documents /\
  raised (fst (retrieve "mammal pets" (-2) three_documents)) = false /\
  exists ranked : list (nat * (document * vector)),
    is_ranking three_documents ranked /\
    fst (retrieve "mammal pets" (-2) three_documents)
      = Returns (map (result_of three_documents) (slice_to ranked (-2))).
Proof.
  split; [exact three_documents_reachable|].
  exact (retrieve_never_raises "mammal pets" (-2) three_documents three_documents_reachable).
Defined.

(** X4: with a negative [top_k] a search in a reachable state returns a
    ranking of all stored entries without its last [-top_k] entries:
    [len(documents) + top_k] results, none when that is negative. *)
Theorem retrieve_negative_count (query : string) (top_k : Z) (w : world) :
  reachable w ->
  (top_k < 0)%Z ->
  exists (ranked : list (nat * (document * vector))) (results : list (string * float)),
    is_ranking w ranked /\
    fst (retrieve query top_k w) = Returns results /\
    results = map (result_of w)
                  (firstn (length (documents (self w)) - Z.to_nat (- top_k)) ranked) /\
    length results = length (documents (self w)) - Z.to_nat (- top_k).
Proof.
  intros Hr Hk. apply reachable_consistent in Hr.
  assert (Hn : length (ranking w) = length (documents (self w))).
  { unfold ranking. rewrite list_sort_reverse_length. apply entries_length, Hr. }
  exists (ranking w). eexists.
  split; [apply ranking_is_ranking|].
  split; [apply retrieve_sliced, Hr|].
  unfold slice_to. destruct (0 <=? top_k)%Z eqn:E; [apply Z.leb_le in E; lia|].
  rewrite Hn.
  replace (Z.to_nat (Z.of_nat (length (documents (self w))) + top_k))
    with (length (documents (self w)) - Z.to_nat (- top_k)) by lia.
  split; [reflexivity|].
  rewrite length_map, length_firstn, Hn. lia.
Qed.

Lemma retrieve_negative_count_witness :
  reachable three_documents /\ (-1 < 0)%Z /\
  exists (ranked : list (nat * (document * vector))) (results : list (string * float)),
    is_ranking three_documents ranked /\
    fst (retrieve "mammal pets" (-1) three_documents) = Returns results /\
    results = map (result_of three_documents)
                  (firstn (length (documents (self three_documents)) - Z.to_nat (- -1))
                          ranked) /\
    length results = length (documents (self three_documents)) - Z.to_nat (- -1).
Proof.
  split; [exact three_documents_reachable|]. split; [lia|].
  apply (retrieve_negative_count "mammal pets" (-1) three_documents).
  - exact three_documents_reachable.
  - lia.
Defined.

(** X5: every vector stored in a reachable state has 100 components. *)
Theorem stored_vectors_dimension (w : world) :
  reachable w ->
  Forall (fun e : vector => length e = 100) (embeddings (self w)).
Proof.
  intros Hr. now apply reachable_consistent in Hr as (_ & Hdim & _).
Qed.

Lemma stored_vectors_dimension_witness :
  reachable three_documents /\
  Forall (fun e : vector => length e = 100) (embeddings (self three_documents)).
Proof.
  split; [exact three_documents_reachable|].
  exact (stored_vectors_dimension three_documents three_documents_reachable).
Defined.

(** *** A question over a non-empty index *)

(** The two lines [query] prints for each retrieved document. *)
Fixpoint retrieved_lines (i : nat) (retrieved_docs : list (string * float)) : list event :=
  match retrieved_docs with
  | [] => []
  | (content, score) :: rest =>
      Stdout [Lit "  "; Dec i; Lit ". 相似度: "; Fix3 score]
      :: Stdout [Lit ("     内容: " +:+ str_take 100 content +:+ "...")]
      :: retrieved_lines (S i) rest
  end.

Lemma bind_returns {A B} (m : M A) (k : A -> M B) w a w' :
  m w = (Returns a, w') -> bind m k w = k a w'.
Proof. intros H. unfold bind. now rewrite H. Qed.

Lemma show_retrieved_run l : forall i w,
  show_retrieved i l w =
  (Returns (map fst l),
   World (self w) (random w) (drawn w) (trace w ++ retrieved_lines i l)).
Proof.
  induction l as [|[content score] l IH]; intros i w.
  - cbn [show_retrieved retrieved_lines map]. rewrite app_nil_r. now destruct w.
  - cbn [show_retrieved retrieved_lines map fst].
    unfold bind at 1 2, print at 1 2.
    erewrite bind_returns by apply IH.
    unfold ret, log. cbn [self random drawn trace].
    now rewrite <- !app_assoc.
Qed.

Lemma generator_calls_retrieved_lines l : forall i, generator_calls (retrieved_lines i l) = 0.
Proof.
  induction l as [|[content score] l IH]; intros i; [reflexivity|]. apply IH.
Qed.

(** X6: in a reachable state with at least one document, [query] returns
    normally.  It searches with [top_k = 3], so that the first one to three
    entries of a ranking of all stored entries are retrieved (a permutation
    of them, by non-increasing score and stable when no score is NaN); it
    prints two lines for each, calls [generate_answer] exactly once, with the
    question and the retrieved contents in ranked order, and returns that
    answer.  The knowledge base is unchanged and the random generator is
    advanced by 100 numbers. *)
Theorem query_answers (question : string) (w : world) :
  reachable w ->
  documents (self w) <> [] ->
  exists ranked : list (nat * (document * vector)),
    is_ranking w ranked /\
    let results := map (result_of w) (firstn 3 ranked) in
    let context_list := map fst results in
    let answer := generate_answer question context_list in
    1 <= length results <= 3 /\
    query question w =
    (Returns answer,
     World (self w) (random w) (drawn w + 100)
       (trace w
        ++ [Stdout [Lit (nl +:+ "问题：" +:+ question)];
            Stdout [Lit (str_repeat "=" 50)];
            Stdout [Lit "1. 检索相关文档..."];
            Stdout [Lit "检索到的相关文档："]]
        ++ retrieved_lines 1 results
        ++ [Stdout [Lit (nl +:+ "2. 生成回答...")];
            Generate question context_list;
            Stdout [Lit (nl +:+ "最终回答：" +:+ answer)]])) /\
    generator_calls (trace (snd (query question w))) = S (generator_calls (trace w)).
Proof.
  intros Hr Hd. exists (ranking w). split; [apply ranking_is_ranking|].
  intros results context_list answer.
  apply reachable_consistent in Hr.
  assert (Hn : length (ranking w) = length (documents (self w))).
  { unfold ranking. rewrite list_sort_reverse_length. apply entries_length, Hr. }
  assert (Hlen : 1 <= length results <= 3).
  { unfold results. rewrite length_map, length_firstn, Hn.
    destruct (documents (self w)); [congruence|]. cbn [length]. lia. }
  assert (E : query question w =
    (Returns answer,
     World (self w) (random w) (drawn w + 100)
       (trace w
        ++ [Stdout [Lit (nl +:+ "问题：" +:+ question)];
            Stdout [Lit (str_repeat "=" 50)];
            Stdout [Lit "1. 检索相关文档..."];
            Stdout [Lit "检索到的相关文档："]]
        ++ retrieved_lines 1 results
        ++ [Stdout [Lit (nl +:+ "2. 生成回答...")];
            Generate question context_list;
            Stdout [Lit (nl +:+ "最终回答：" +:+ answer)]]))).
  { unfold query, bind at 1 2 3. cbn [print].
    set (w3 := log _ (log _ (log _ w))).
    assert (R : retrieve question 3 w3 = (Returns results, set_drawn (drawn w + 100) w3)).
    { rewrite (surjective_pairing (retrieve question 3 w3)).
      rewrite retrieve_sliced by exact Hr. rewrite retrieve_state.
      change (documents (self w3)) with (documents (self w)).
      destruct (documents (self w)); [congruence|]. reflexivity. }
    erewrite bind_returns by exact R.
    subst answer context_list. clear R. clearbody results.
    destruct results as [|r rs]; [cbn [length] in Hlen; lia|].
    unfold bind at 1, print at 1.
    erewrite bind_returns by apply show_retrieved_run.
    unfold bind, print, ret, log, set_drawn. subst w3. unfold log.
    cbn [self random drawn trace].
    now rewrite <- !app_assoc. }
  split; [exact Hlen|]. split; [exact E|].
  rewrite E. cbn [snd trace].
  rewrite !generator_calls_app, generator_calls_retrieved_lines. cbn [generator_calls]. lia.
Qed.

Lemma query_answers_witness :
  reachable three_documents /\ documents (self three_documents) <> [] /\
  exists ranked : list (nat * (document * vector)),
    is_ranking three_documents ranked /\
    let results := map (result_of three_documents) (firstn 3 ranked) in
    let context_list := map fst results in
    let answer := generate_answer "mammal pets" context_list in
    1 <= length results <= 3 /\
    query "mammal pets" three_documents =
    (Returns answer,
     World (self three_documents) (random three_documents) (drawn three_documents + 100)
       (trace three_documents
        ++ [Stdout [Lit (nl +:+ "问题：" +:+ "mammal pets")];
            Stdout [Lit (str_repeat "=" 50)];
            Stdout [Lit "1. 检索相关文档..."];
            Stdout [Lit "检索到的相关文档："]]
        ++ retrieved_lines 1 results
        ++ [Stdout [Lit (nl +:+ "2. 生成回答...")];
            Generate "mammal pets" context_list;
            Stdout [Lit (nl +:+ "最终回答：" +:+ answer)]])) /\
    generator_calls (trace (snd (query "mammal pets" three_documents)))
      = S (generator_calls (trace three_documents)).
Proof.
  assert (H : documents (self three_documents) <> []) by (vm_compute; discriminate).
  split; [exact three_documents_reachable|]. split; [exact H|].
  exact (query_answers "mammal pets" three_documents three_documents_reachable H).
Defined.

(** *** The index and duplicate ids *)

(** Every stored document finds its id in the index, at a position that is
    not before its own. *)
Definition indexed_last (r : SimpleRAG) : Prop :=
  forall (j : nat) (d : document),
    documents r !! j = Some d ->
    exists i, index r !! doc_id d = Some i /\ j <= i.

Lemma indexed_last_added id content w :
  indexed_last (self w) -> indexed_last (self (added id content w)).
Proof.
  intros H j d. unfold added. cbn [self documents index].
  intros Hj. apply lookup_app_Some in Hj as [Hj|[Hge Hj]].
  - destruct (decide (id = doc_id d)) as [->|Hne].
    + exists (length (documents (self w))). rewrite lookup_insert_eq.
      split; [reflexivity|]. apply lookup_lt_Some in Hj. lia.
    + rewrite lookup_insert_ne by exact Hne. now apply H.
  - destruct (j - length (documents (self w))) as [|k] eqn:Ek; [|discriminate].
    injection Hj as <-. cbn [doc_id].
    exists (length (documents (self w))). rewrite lookup_insert_eq.
    split; [reflexivity|]. lia.
Qed.

Lemma reachable_indexed_last w : reachable w -> indexed_last (self w).
Proof.
  induction 1 as [w H|w id c _ IH|w q k _ IH|w q _ IH].
  - rewrite H. intros j d Hj. discriminate.
  - rewrite add_document_run. now apply indexed_last_added.
  - now rewrite retrieve_self.
  - now rewrite query_self.
Qed.

Lemma unique_ids_exact (r : SimpleRAG) :
  consistent r -> indexed_last r ->
  NoDup (doc_id <$> documents r) ->
  forall (j : nat) (d : document),
    documents r !! j = Some d -> index r !! doc_id d = Some j.
Proof.
  intros (_ & _ & Hidx) Hlast Hnd j d Hj.
  destruct (Hlast j d Hj) as (i & Hi & _).
  destruct (Hidx _ _ Hi) as (d' & Hd' & Hid).
  rewrite Hi. f_equal.
  apply (NoDup_lookup (doc_id <$> documents r) i j (doc_id d) Hnd).
  - rewrite list_lookup_fmap, Hd'. cbn. now rewrite Hid.
  - now rewrite list_lookup_fmap, Hj.
Qed.

(** X7: in every reachable state the id of every stored document is in the
    index, and the index leads from it to the last position that holds a
    document of that id: an id inserted again hides the earlier entries from
    the index, which stay in the lists. *)
Theorem index_points_to_last (w : world) (j : nat) (d : document) :
  reachable w ->
  documents (self w) !! j = Some d ->
  exists (i : nat) (d' : document),
    index (self w) !! doc_id d = Some i /\
    documents (self w) !! i = Some d' /\ doc_id d' = doc_id d /\
    j <= i /\
    forall (j' : nat) (d'' : document),
      documents (self w) !! j' = Some d'' -> doc_id d'' = doc_id d -> j' <= i.
Proof.
  intros Hr Hj.
  pose proof (reachable_consistent w Hr) as (_ & _ & Hidx).
  pose proof (reachable_indexed_last w Hr) as Hlast.
  destruct (Hlast j d Hj) as (i & Hi & Hle).
  destruct (Hidx _ _ Hi) as (d' & Hd' & Hid).
  exists i, d'. repeat split; try assumption.
  intros j' d'' Hj' Hsame.
  destruct (Hlast j' d'' Hj') as (i' & Hi' & Hle').
  rewrite Hsame, Hi in Hi'. injection Hi' as <-. exact Hle'.
Qed.

(** The index [one_document] with a second document under the same id. *)
Definition d1_twice : world :=
  snd (add_document "d1" "dogs are mammals" one_document).

Lemma d1_twice_reachable : reachable d1_twice.
Proof. apply reach_add, one_document_reachable. Qed.

Lemma index_points_to_last_witness :
  reachable d1_twice /\
  documents (self d1_twice) !! 0 = Some (Doc "d1" "cats are mammals") /\
  exists (i : nat) (d' : document),
    index (self d1_twice) !! doc_id (Doc "d1" "cats are mammals") = Some i /\
    documents (self d1_twice) !! i = Some d' /\
    doc_id d' = doc_id (Doc "d1" "cats are mammals") /\
    0 <= i /\
    forall (j' : nat) (d'' : document),
      documents (self d1_twice) !! j' = Some d'' ->
      doc_id d'' = doc_id (Doc "d1" "cats are mammals") -> j' <= i.
Proof.
  assert (H : documents (self d1_twice) !! 0 = Some (Doc "d1" "cats are mammals"))
    by reflexivity.
  split; [exact d1_twice_reachable|]. split; [exact H|].
  exact (index_points_to_last d1_twice 0 (Doc "d1" "cats are mammals")
           d1_twice_reachable H).
Defined.

(** The duplicate at work: the index leads from [d1] to position 1, and
    position 0 still holds the first document. *)
Example d1_twice_index :
  index (self d1_twice) !! "d1" = Some 1 /\
  documents (self d1_twice)
  = [Doc "d1" "cats are mammals"; Doc "d1" "dogs are mammals"].
Proof. split; reflexivity. Qed.

(** X8: in a reachable state whose documents have pairwise different ids,
    the index is the inverse of the list: it leads from the id of the document
    at position [j] to [j]. *)
Theorem unique_ids_index_exact (w : world) (j : nat) (d : document) :
  reachable w ->
  NoDup (doc_id <$> documents (self w)) ->
  documents (self w) !! j = Some d ->
  index (self w) !! doc_id d = Some j.
Proof.
  intros Hr Hnd Hj.
  exact (unique_ids_exact (self w) (reachable_consistent w Hr)
           (reachable_indexed_last w Hr) Hnd j d Hj).
Qed.

Lemma unique_ids_index_exact_witness :
  reachable three_documents /\
  NoDup (doc_id <$> documents (self three_documents)) /\
  documents (self three_documents) !! 1 = Some (Doc "d2" "dogs are mammals") /\
  index (self three_documents) !! doc_id (Doc "d2" "dogs are mammals") = Some 1.
Proof.
  assert (Hnd : NoDup (doc_id <$> documents (self three_documents))).
  { apply (bool_decide_unpack _). vm_compute. reflexivity. }
  assert (H : documents (self three_documents) !! 1 = Some (Doc "d2" "dogs are mammals"))
    by reflexivity.
  split; [exact three_documents_reachable|]. split; [exact Hnd|]. split; [exact H|].
  exact (unique_ids_index_exact three_documents 1 (Doc "d2" "dogs are mammals")
           three_documents_reachable Hnd H).
Defined.

(** X9: after [add_document(doc_id, content)] in a reachable state the
    index leads from [doc_id] to a position that holds this document in
    [documents] and, in [embeddings], the vector drawn for it; every entry
    stored before is where and what it was. *)
Theorem add_document_lookup (doc_id content : string) (w : world) :
  reachable w ->
  let w' := snd (add_document doc_id content w) in
  exists i : nat,
    index (self w') !! doc_id = Some i /\
    documents (self w') !! i = Some (Doc doc_id content) /\
    embeddings (self w') !! i = Some (map (random w) (seq (drawn w) 100)) /\
    forall j : nat,
      j < length (documents (self w)) ->
      documents (self w') !! j = documents (self w) !! j /\
      embeddings (self w') !! j = embeddings (self w) !! j.
Proof.
  intros Hr. apply reachable_consistent in Hr as (Hlen & _ & _).
  cbv zeta. rewrite add_document_run. unfold added. cbn [snd self documents embeddings index].
  exists (length (documents (self w))). repeat split.
  - apply lookup_insert_eq.
  - rewrite lookup_app_r by lia. now rewrite Nat.sub_diag.
  - rewrite Hlen. rewrite lookup_app_r by reflexivity. now rewrite Nat.sub_diag.
  - now rewrite lookup_app_l.
  - rewrite lookup_app_l; [reflexivity|]. rewrite <- Hlen. assumption.
Qed.

Lemma add_document_lookup_witness :
  reachable one_document /\
  let w' := snd (add_document "d2" "dogs are mammals" one_document) in
  exists i : nat,
    index (self w') !! "d2" = Some i /\
    documents (self w') !! i = Some (Doc "d2" "dogs are mammals") /\
    embeddings (self w') !! i
      = Some (map (random one_document) (seq (drawn one_document) 100)) /\
    forall j : nat,
      j < length (documents (self one_document)) ->
      documents (self w') !! j = documents (self one_document) !! j /\
      embeddings (self w') !! j = embeddings (self one_document) !! j.
Proof.
  split; [exact one_document_reachable|].
  exact (add_document_lookup "d2" "dogs are mammals" one_document one_document_reachable).
Defined.

(** *** Loading a list of documents *)

(** The loop of [main] over its documents:
    [for doc_id, content in documents: rag.add_document(doc_id, content)]. *)
Definition ingest (documents : list (string * string)) : M unit :=
  for_each (fun '(doc_id, content) => add_document doc_id content) documents.

Definition as_document (x : string * string) : document := Doc (fst x) (snd x).

Lemma ingest_run l : forall w,
  fst (ingest l w) = Returns tt /\
  documents (self (snd (ingest l w))) = documents (self w) ++ map as_document l /\
  length (embeddings (self (snd (ingest l w)))) = length (embeddings (self w)) + length l /\
  drawn (snd (ingest l w)) = drawn w + 100 * length l /\
  (reachable w -> reachable (snd (ingest l w))).
Proof.
  induction l as [|[id c] l IH]; intros w.
  - cbn. rewrite app_nil_r. repeat split; [lia|lia|auto].
  - unfold ingest in *. cbn [for_each].
    erewrite bind_returns by apply add_document_run.
    destruct (IH (added id c w)) as (H1 & H2 & H3 & H4 & H5).
    rewrite H1, H2, H3, H4. unfold added at 1 2 3. cbn [self documents embeddings drawn].
    rewrite <- app_assoc, length_app. cbn [map length app as_document fst snd].
    repeat split; try lia.
    intros Hr. apply H5.
    replace (added id c w) with (snd (add_document id c w))
      by now rewrite add_document_run.
    now apply reach_add.
Qed.

(** X10: loading a list of documents never fails; it appends them to
    [documents] in the order of the list, stores one vector for each and
    takes 100 random numbers for each. *)
Theorem ingest_appends (l : list (string * string)) (w : world) :
  let w' := snd (ingest l w) in
  fst (ingest l w) = Returns tt /\
  documents (self w') = documents (self w) ++ map as_document l /\
  length (embeddings (self w')) = length (embeddings (self w)) + length l /\
  drawn w' = drawn w + 100 * length l.
Proof.
  destruct (ingest_run l w) as (H1 & H2 & H3 & H4 & _). now repeat split.
Qed.

(** X11: after loading documents with pairwise different ids into a new
    object, the index leads from the id of the [j]-th document of the list to
    position [j], where that document is stored. *)
Theorem ingest_fresh_lookup (l : list (string * string)) (w : world)
        (j : nat) (id content : string) :
  self w = __init__ ->
  NoDup (fst <$> l) ->
  l !! j = Some (id, content) ->
  let w' := snd (ingest l w) in
  index (self w') !! id = Some j /\
  documents (self w') !! j = Some (Doc id content).
Proof.
  intros Hinit Hnd Hj. cbv zeta.
  destruct (ingest_run l w) as (_ & Hdocs & _ & _ & Hreach).
  rewrite Hinit in Hdocs. cbn [documents __init__ app] in Hdocs.
  assert (Hr : reachable (snd (ingest l w))) by (apply Hreach; now apply reach_init).
  assert (Hdoc : documents (self (snd (ingest l w))) !! j = Some (Doc id content)).
  { rewrite Hdocs. change (map as_document l) with (as_document <$> l).
    now rewrite list_lookup_fmap, Hj. }
  split; [|exact Hdoc].
  apply (unique_ids_exact (self (snd (ingest l w))) (reachable_consistent _ Hr)
           (reachable_indexed_last _ Hr)) with (d := Doc id content); [|exact Hdoc].
  rewrite Hdocs. change (map as_document l) with (as_document <$> l).
  rewrite <- list_fmap_compose.
  erewrite list_fmap_ext; [exact Hnd|]. now intros i [a b].
Qed.

Lemma ingest_fresh_lookup_witness :
  let l := [("d1", "cats are mammals"); ("d2", "dogs are mammals"); ("d3", "rockets use fuel")] in
  let w := fresh quarter_then_half in
  self w = __init__ /\ NoDup (fst <$> l) /\ l !! 2 = Some ("d3", "rockets use fuel") /\
  index (self (snd (ingest l w))) !! "d3" = Some 2 /\
  documents (self (snd (ingest l w))) !! 2 = Some (Doc "d3" "rockets use fuel").
Proof.
  cbv zeta.
  assert (Hnd : NoDup (fst <$> [("d1", "cats are mammals"); ("d2", "dogs are mammals");
                                ("d3", "rockets use fuel")]))
    by (apply (bool_decide_unpack _); vm_compute; reflexivity).
  split; [reflexivity|]. split; [exact Hnd|]. split; [reflexivity|].
  exact (ingest_fresh_lookup
           [("d1", "cats are mammals"); ("d2", "dogs are mammals"); ("d3", "rockets use fuel")]
           (fresh quarter_then_half) 2 "d3" "rockets use fuel" eq_refl Hnd eq_refl).
Defined.

Lemma query_state question w :
  exists (n : nat) (t : list event),
    snd (query question w) = World (self w) (random w) n t /\
    drawn w <= n <= drawn w + 100.
Proof.
  unfold query, bind at 1 2 3. cbn [print].
  set (w3 := log _ (log _ (log _ w))).
  unfold bind at 1.
  pose proof (retrieve_state question 3 w3) as Hs.
  assert (Hw : exists n t, snd (retrieve question 3 w3) = World (self w) (random w) n t /\
                           drawn w <= n <= drawn w + 100).
  { rewrite Hs. destruct (documents (self w3));
      eexists _, _; (split; [reflexivity|cbn; lia]). }
  clear Hs. destruct Hw as (n & t & Hw & Hn).
  destruct (retrieve question 3 w3) as [[docs|e] w4]; cbn [snd] in Hw; subst w4.
  - destruct docs as [|r rs].
    + exists n, t. split; [reflexivity|exact Hn].
    + unfold bind at 1, print at 1.
      erewrite bind_returns by apply show_retrieved_run.
      unfold bind, print, ret, log. cbn [snd self random drawn trace].
      eexists _, _. split; [reflexivity|exact Hn].
  - exists n, t. split; [reflexivity|exact Hn].
Qed.

(** X20: in every state, whatever it returns or raises, [query] changes
    neither [documents], [embeddings] nor [index], and it leaves the sequence
    of the random generator as it is, taking at most 100 numbers from it. *)
Theorem query_read_only (question : string) (w : world) :
  self (snd (query question w)) = self w /\
  random (snd (query question w)) = random w /\
  drawn w <= drawn (snd (query question w)) <= drawn w + 100.
Proof.
  destruct (query_state question w) as (n & t & E & Hn).
  rewrite E. cbn [self random drawn]. now repeat split.
Qed.

End rag_extras.

(* ===================================================================== *)
(** ** Further properties of [test_api.py] *)

Module api_extras.
Import test_api api_properties.

(** The configuration [load_environment] reads: the environment first, the
    [.env] file for what the environment does not set. *)
Definition configured (name : string) (p : process) : option string :=
  (environ p ∪ dotenv p) !! name.

(** The request of [test_api_connection]. *)
Definition connection_request (api_key base_url : string) : request :=
  Request api_key base_url "claude-3-sonnet-20240229" 100
          "请简单回复'API测试成功'，并说明你是Claude的哪个版本。".

(** The service answers a request with a response that has a content block. *)
Definition answered (p : process) (r : request) : Prop :=
  exists (resp : response) (text : string) (rest : list string),
    service p r = inr resp /\ content resp = text :: rest.

Definition answeredb (p : process) (r : request) : bool :=
  match service p r with
  | inr resp => match content resp with [] => false | _ :: _ => true end
  | inl _ => false
  end.

Lemma answeredb_spec p r : answeredb p r = true <-> answered p r.
Proof.
  unfold answeredb, answered. split.
  - destruct (service p r) as [x|resp]; [discriminate|].
    destruct (content resp) as [|t ts] eqn:E; [discriminate|]. eauto.
  - intros (resp & t & ts & -> & ->). reflexivity.
Qed.

(** *** [load_environment] *)

(** X12: [load_environment] returns either [(None, None)] or the two
    configured values, both non-empty, never one without the other; it sends
    no request. *)
Theorem load_environment_all_or_nothing (p : process) :
  (fst (load_environment p) = (None, None) \/
   exists k u : string,
     fst (load_environment p) = (Some k, Some u) /\ k <> "" /\ u <> "" /\
     configured "ANTHROPIC_API_KEY" p = Some k /\
     configured "ANTHROPIC_BASE_URL" p = Some u) /\
  requests (snd (load_environment p)) = requests p.
Proof.
  destruct p as [env de svc out reqs].
  unfold load_environment, configured, getenv, load_dotenv, print.
  cbn [environ dotenv service stdout requests].
  destruct ((env ∪ de) !! "ANTHROPIC_API_KEY") as [[|a k]|];
    cbn [falsy fst snd requests]; try (split; [now left|reflexivity]).
  destruct ((env ∪ de) !! "ANTHROPIC_BASE_URL") as [[|b u]|];
    cbn [falsy fst snd requests]; try (split; [now left|reflexivity]).
  split; [|reflexivity]. right. exists (String a k), (String b u).
  repeat split; discriminate.
Qed.

(** X13: when the API key is missing or empty, the one line
    [load_environment] prints is the one about the key, whether the base URL
    is configured or not. *)
Theorem load_environment_key_first (p : process) :
  falsy (configured "ANTHROPIC_API_KEY" p) = true ->
  fst (load_environment p) = (None, None) /\
  stdout (snd (load_environment p)) = stdout p ++ [[Lit missing_key]].
Proof.
  destruct p as [env de svc out reqs].
  unfold load_environment, configured, getenv, load_dotenv, print.
  cbn [environ dotenv service stdout requests].
  intros ->. split; reflexivity.
Qed.

(** A process with neither value configured. *)
Definition unconfigured : process :=
  Process ∅ ∅ (fun _ => inl (APIConnectionError "Connection error.")) [] [].

Lemma load_environment_key_first_witness :
  falsy (configured "ANTHROPIC_API_KEY" unconfigured) = true /\
  fst (load_environment unconfigured) = (None, None) /\
  stdout (snd (load_environment unconfigured)) = stdout unconfigured ++ [[Lit missing_key]].
Proof.
  split; [reflexivity|].
  apply (load_environment_key_first unconfigured). reflexivity.
Defined.

Lemma str_take_all s : forall n, str_len s <= n -> str_take n s = s.
Proof.
  induction s as [|c s IH]; intros n H; [reflexivity|].
  cbn [str_take str_len] in *. destruct (is_continuation c).
  - now rewrite IH.
  - destruct n as [|n]; [lia|]. rewrite IH by lia. reflexivity.
Qed.

(** X14: the line that shows the API key masks nothing when the key has
    at most ten characters: [api_key[:10]] is then the whole key, which is
    printed in clear. *)
Theorem short_key_printed_in_full (p : process) (k u : string) :
  configured "ANTHROPIC_API_KEY" p = Some k -> k <> "" ->
  configured "ANTHROPIC_BASE_URL" p = Some u -> u <> "" ->
  str_len k <= 10 ->
  stdout (snd (load_environment p)) =
    stdout p ++ [[Lit ("✅ API Key: " +:+ k +:+ "..." +:+ str_last 4 k)];
                 [Lit ("✅ Base URL: " +:+ u)]].
Proof.
  destruct p as [env de svc out reqs].
  unfold load_environment, configured, getenv, load_dotenv, print.
  cbn [environ dotenv service stdout requests].
  intros -> Hk -> Hu Hlen.
  destruct k as [|a k]; [congruence|]. destruct u as [|b u]; [congruence|].
  cbn [falsy default snd stdout].
  rewrite str_take_all by exact Hlen. now rewrite <- app_assoc.
Qed.

Definition short_key : process :=
  Process {["ANTHROPIC_API_KEY" := "sk-secret"; "ANTHROPIC_BASE_URL" := "https://api.example.test"]}
          ∅ (fun _ => inl (APIConnectionError "Connection error.")) [] [].

Lemma short_key_printed_in_full_witness :
  configured "ANTHROPIC_API_KEY" short_key = Some "sk-secret" /\ "sk-secret" <> "" /\
  configured "ANTHROPIC_BASE_URL" short_key = Some "https://api.example.test" /\
  "https://api.example.test" <> "" /\
  str_len "sk-secret" <= 10 /\
  stdout (snd (load_environment short_key)) =
    stdout short_key
      ++ [[Lit ("✅ API Key: " +:+ "sk-secret" +:+ "..." +:+ str_last 4 "sk-secret")];
          [Lit ("✅ Base URL: " +:+ "https://api.example.test")]].
Proof.
  assert (H1 : configured "ANTHROPIC_API_KEY" short_key = Some "sk-secret")
    by (vm_compute; reflexivity).
  assert (H2 : configured "ANTHROPIC_BASE_URL" short_key = Some "https://api.example.test")
    by (vm_compute; reflexivity).
  assert (N1 : "sk-secret" <> "") by discriminate.
  assert (N2 : "https://api.example.test" <> "") by discriminate.
  assert (L : str_len "sk-secret" <= 10) by (vm_compute; lia).
  repeat (split; [assumption|]).
  exact (short_key_printed_in_full short_key "sk-secret" "https://api.example.test"
           H1 N1 H2 N2 L).
Defined.

(** *** The two tests *)

(** The request of [test_rag_scenario]. *)
Definition rag_request (api_key base_url : string) : request :=
  Request api_key base_url "claude-3-sonnet-20240229" 200
    ((nl +:+ "        上下文信息：" +:+ nl +:+
      "        RAG（Retrieval-Augmented Generation）是一种结合了信息检索和生成式AI的技术。" +:+ nl +:+
      "        它通过检索相关文档片段，然后将这些信息作为上下文提供给大语言模型来生成更准确的回答。" +:+ nl +:+
      "        ")
     +:+ nl +:+ nl +:+ "问题：" +:+ "根据上述上下文，请解释什么是RAG技术？").

(** The parts of a process a test does not touch. *)
Definition same_surroundings (p p' : process) : Prop :=
  environ p' = environ p /\ dotenv p' = dotenv p /\ service p' = service p.

Lemma test_api_connection_run k u p :
  fst (test_api_connection k u p) = answeredb p (connection_request k u) /\
  requests (snd (test_api_connection k u p)) = requests p ++ [connection_request k u] /\
  same_surroundings p (snd (test_api_connection k u p)) /\
  exists lines, stdout (snd (test_api_connection k u p)) = stdout p ++ lines /\ lines <> [].
Proof.
  destruct p as [env de svc out reqs].
  unfold test_api_connection, answeredb, messages_create, print, same_surroundings.
  fold (connection_request k u).
  cbn [environ dotenv service stdout requests].
  destruct (svc (connection_request k u)) as [[e|e|e|e|e]|resp];
    [| | | | |destruct (content resp) as [|t ts]];
    cbn [fst snd environ dotenv service stdout requests];
    (split; [reflexivity|]; split; [reflexivity|]; split; [now repeat split|]);
    rewrite <- ?app_assoc; cbn [app]; eexists; (split; [reflexivity|discriminate]).
Qed.

Lemma test_rag_scenario_run k u p :
  fst (test_rag_scenario k u p) = answeredb p (rag_request k u) /\
  requests (snd (test_rag_scenario k u p)) = requests p ++ [rag_request k u] /\
  same_surroundings p (snd (test_rag_scenario k u p)) /\
  exists lines, stdout (snd (test_rag_scenario k u p)) = stdout p ++ lines /\ lines <> [].
Proof.
  destruct p as [env de svc out reqs].
  unfold test_rag_scenario, answeredb, messages_create, print, same_surroundings.
  fold (rag_request k u).
  cbn [environ dotenv service stdout requests].
  destruct (svc (rag_request k u)) as [x|resp];
    [|destruct (content resp) as [|t ts]];
    cbn [fst snd environ dotenv service stdout requests];
    (split; [reflexivity|]; split; [reflexivity|]; split; [now repeat split|]);
    rewrite <- ?app_assoc; cbn [app]; eexists; (split; [reflexivity|discriminate]).
Qed.

(** X15: [test_api_connection] sends exactly one request, with the key and
    the base URL it was given, the model [claude-3-sonnet-20240229] and
    [max_tokens = 100].  It never propagates an exception: it returns [True]
    exactly when the service answers with a response that has a content
    block, and [False] for every error and for a response without content. *)
Theorem test_api_connection_one_request (k u : string) (p : process) :
  requests (snd (test_api_connection k u p)) = requests p ++ [connection_request k u] /\
  (fst (test_api_connection k u p) = true <-> answered p (connection_request k u)) /\
  same_surroundings p (snd (test_api_connection k u p)).
Proof.
  destruct (test_api_connection_run k u p) as (Hb & Hr & Hs & _).
  split; [exact Hr|]. split; [|exact Hs].
  rewrite Hb. apply answeredb_spec.
Qed.

(** X16: [test_rag_scenario] sends exactly one request, with the key and
    the base URL it was given, the same model and [max_tokens = 200], and
    returns [True] exactly when the service answers with a response that has
    a content block. *)
Theorem test_rag_scenario_one_request (k u : string) (p : process) :
  requests (snd (test_rag_scenario k u p)) = requests p ++ [rag_request k u] /\
  (fst (test_rag_scenario k u p) = true <-> answered p (rag_request k u)) /\
  same_surroundings p (snd (test_rag_scenario k u p)).
Proof.
  destruct (test_rag_scenario_run k u p) as (Hb & Hr & Hs & _).
  split; [exact Hr|]. split; [|exact Hs].
  rewrite Hb. apply answeredb_spec.
Qed.

(** *** [main] *)

(** The requests [main] sends with a configured key and URL: the
    connection test, and the RAG scenario when the former succeeded. *)
Definition requests_sent (p : process) (k u : string) : list request :=
  connection_request k u
  :: (if answeredb p (connection_request k u) then [rag_request k u] else []).

Lemma main_run (p : process) :
  match configured "ANTHROPIC_API_KEY" p, configured "ANTHROPIC_BASE_URL" p with
  | Some (String a k), Some (String b u) =>
      fst (main p) = (if answeredb p (connection_request (String a k) (String b u))
                      then 0 else 1)%Z /\
      requests (snd (main p)) = requests p ++ requests_sent p (String a k) (String b u)
  | _, _ => fst (main p) = 1%Z /\ requests (snd (main p)) = requests p
  end.
Proof.
  destruct p as [env de svc out reqs].
  unfold main, load_environment, configured, getenv, load_dotenv, print.
  cbn [environ dotenv service stdout requests].
  destruct ((env ∪ de) !! "ANTHROPIC_API_KEY") as [[|a k]|];
    cbn [falsy default fst snd requests]; try (split; reflexivity).
  destruct ((env ∪ de) !! "ANTHROPIC_BASE_URL") as [[|b u]|];
    cbn [falsy default fst snd requests]; try (split; reflexivity).
  match goal with
  | |- context [test_api_connection ?K ?U ?P] =>
      destruct (test_api_connection_run K U P) as (Hb & Hr & (_ & _ & Hs) & _);
      destruct (test_api_connection K U P) as [ok p1]
  end.
  cbn [fst snd requests service] in Hb, Hr, Hs.
  unfold requests_sent, answeredb in *. cbn [service] in *.
  rewrite <- Hb. destruct ok.
  - match goal with
    | |- context [test_rag_scenario ?K ?U ?P] =>
        destruct (test_rag_scenario_run K U P) as (_ & Hr2 & _ & _);
        destruct (test_rag_scenario K U P) as [ok2 p2]
    end.
    cbn [fst snd] in Hr2 |- *.
    split; [reflexivity|].
    destruct ok2; cbn [requests print]; rewrite Hr2, Hr, <- app_assoc; reflexivity.
  - cbn [fst snd requests print]. split; [reflexivity|]. exact Hr.
Qed.

(** X17: the exit status of [main] is 0 or 1, and it is 0 exactly when the
    key and the base URL are both configured and non-empty and the connection
    test is answered.  The outcome of the RAG scenario does not enter: [main]
    returns, with status 0, also when that second test failed. *)
Theorem main_exit_status (p : process) :
  (fst (main p) = 0%Z \/ fst (main p) = 1%Z) /\
  (fst (main p) = 0%Z <->
   exists k u : string,
     configured "ANTHROPIC_API_KEY" p = Some k /\ k <> "" /\
     configured "ANTHROPIC_BASE_URL" p = Some u /\ u <> "" /\
     answered p (connection_request k u)).
Proof.
  pose proof (main_run p) as H.
  destruct (configured "ANTHROPIC_API_KEY" p) as [[|a k]|] eqn:Hk;
    [| |];
    try (destruct H as [H _]; rewrite H; split; [now right|];
         split; [discriminate|];
         intros (k' & u' & E & Hne & _); injection E as <-; congruence);
    try (destruct H as [H _]; rewrite H; split; [now right|];
         split; [discriminate|]; intros (k' & u' & E & _); discriminate).
  destruct (configured "ANTHROPIC_BASE_URL" p) as [[|b u]|] eqn:Hu;
    try (destruct H as [H _]; rewrite H; split; [now right|];
         split; [discriminate|];
         intros (k' & u' & _ & _ & E & Hne & _); injection E as <-; congruence);
    try (destruct H as [H _]; rewrite H; split; [now right|];
         split; [discriminate|]; intros (k' & u' & _ & _ & E & _); discriminate).
  destruct H as [H _]. rewrite H.
  destruct (answeredb p (connection_request (String a k) (String b u))) eqn:Ha.
  - split; [now left|]. split; [|reflexivity]. intros _.
    exists (String a k), (String b u).
    repeat split; try discriminate. now apply answeredb_spec.
  - split; [now right|]. split; [discriminate|].
    intros (k' & u' & E1 & _ & E2 & _ & Hans).
    injection E1 as <-. injection E2 as <-.
    apply answeredb_spec in Hans. congruence.
Qed.

(** X18: [main] sends no request when the key or the base URL is missing
    or empty.  With both configured it sends the request of the connection
    test first; when that test is answered it sends the request of the RAG
    scenario after it and nothing else, and when the test is not answered it
    sends nothing more.  Both requests carry the configured key and base
    URL. *)
Theorem main_requests (p : process) :
  (falsy (configured "ANTHROPIC_API_KEY" p) = true \/
   falsy (configured "ANTHROPIC_BASE_URL" p) = true ->
   requests (snd (main p)) = requests p) /\
  (forall k u : string,
     configured "ANTHROPIC_API_KEY" p = Some k -> k <> "" ->
     configured "ANTHROPIC_BASE_URL" p = Some u -> u <> "" ->
     (answered p (connection_request k u) ->
      requests (snd (main p)) = requests p ++ [connection_request k u; rag_request k u]) /\
     (~ answered p (connection_request k u) ->
      requests (snd (main p)) = requests p ++ [connection_request k u])).
Proof.
  pose proof (main_run p) as H. split.
  - intros Hf.
    destruct (configured "ANTHROPIC_API_KEY" p) as [[|a k]|]; try (now destruct H).
    destruct (configured "ANTHROPIC_BASE_URL" p) as [[|b u]|]; try (now destruct H).
    cbn [falsy] in Hf. destruct Hf; discriminate.
  - intros k u Hk Hnk Hu Hnu. rewrite Hk, Hu in H.
    destruct k as [|a k]; [congruence|]. destruct u as [|b u]; [congruence|].
    destruct H as [_ H]. rewrite H. unfold requests_sent.
    destruct (answeredb p (connection_request (String a k) (String b u))) eqn:Ha.
    + split; [reflexivity|]. intros Hn. exfalso. apply Hn. now apply answeredb_spec.
    + split; [|reflexivity]. intros Hans. apply answeredb_spec in Hans. congruence.
Qed.

(** X19: an empty value counts as a missing one: when the key or the base
    URL is configured as the empty string, [main] sends no request and the
    process ends with exit status 1. *)
Theorem empty_configuration_exits (p : process) :
  configured "ANTHROPIC_API_KEY" p = Some "" \/
  configured "ANTHROPIC_BASE_URL" p = Some "" ->
  fst (main p) = 1%Z /\ requests (snd (main p)) = requests p.
Proof.
  intros H. pose proof (main_run p) as R.
  destruct (configured "ANTHROPIC_API_KEY" p) as [[|a k]|]; try exact R.
  destruct (configured "ANTHROPIC_BASE_URL" p) as [[|b u]|]; try exact R.
  destruct H; discriminate.
Qed.

Definition empty_url : process :=
  Process {["ANTHROPIC_API_KEY" := "sk-ant-0123456789"; "ANTHROPIC_BASE_URL" := ""]}
          ∅ (fun _ => inr (Response ["ok"] "claude-3-sonnet-20240229" 1 1)) [] [].

Lemma empty_configuration_exits_witness :
  (configured "ANTHROPIC_API_KEY" empty_url = Some "" \/
   configured "ANTHROPIC_BASE_URL" empty_url = Some "") /\
  fst (main empty_url) = 1%Z /\ requests (snd (main empty_url)) = requests empty_url.
Proof.
  assert (H : configured "ANTHROPIC_API_KEY" empty_url = Some "" \/
              configured "ANTHROPIC_BASE_URL" empty_url = Some "")
    by (right; vm_compute; reflexivity).
  split; [exact H|]. exact (empty_configuration_exits empty_url H).
Defined.

(** A run in which the connection test is answered and the RAG scenario is
    not: two requests are sent and the exit status is 0. *)
Example rag_failure_exits_zero :
  let p := Process {["ANTHROPIC_API_KEY" := "sk-ant-0123456789";
                     "ANTHROPIC_BASE_URL" := "https://api.example.test"]} ∅
             (fun r => if (max_tokens r =? 100)%Z
                       then inr (Response ["API测试成功"] "claude-3-sonnet-20240229" 20 10)
                       else inl (RateLimitError "rate limited")) [] [] in
  fst (main p) = 0%Z /\ length (requests (snd (main p))) = 2.
Proof. vm_compute. split; reflexivity. Qed.

End api_extras.
